(** * OpenCL execution provider utilities: layout algebra and kernel launcher

    A shallow embedding of [onnxruntime/core/providers/opencl/opencl_utils.h]:
    the work-grid value type [NDRange], the integer helpers [CeilDiv] and
    [RoundToMultiple], the image layout rules of [Image2DDesc], the checked
    handle extraction macros and the fluent [KernelLauncher].

    Machine integers are integers of [Z] with the wrap-around written out.
    Code that can throw lives in an error monad; code that talks to the
    OpenCL driver threads an explicit log of driver calls. *)

From Stdlib Require Import ZArith List Lia Bool String.
Import ListNotations.
Local Open Scope Z_scope.

(** ** Fixed-width integers *)

(** [int64_t]: two's complement, 64 bits.  Signed overflow is undefined in
    C++; the embedding takes the wrap-around every supported target
    produces, so that each operation is a total function. *)
Module Int64.
Definition min_signed : Z := - 2 ^ 63.
Definition max_signed : Z := 2 ^ 63 - 1.
Definition in_range (z : Z) : Prop := min_signed <= z <= max_signed.
Definition wrap (z : Z) : Z := (z + 2 ^ 63) mod 2 ^ 64 - 2 ^ 63.
Definition add (x y : Z) : Z := wrap (x + y).
Definition sub (x y : Z) : Z := wrap (x - y).
Definition mul (x y : Z) : Z := wrap (x * y).
(** C++ [/] truncates towards zero.  Division by zero is undefined in
    C++; [Z.quot] yields 0 there and no caller in this file divides by
    anything but a positive constant. *)
Definition div (x y : Z) : Z := wrap (Z.quot x y).
End Int64.

(** [size_t] on the LP64 targets of the provider: unsigned, 64 bits. *)
Module SizeT.
Definition modulus : Z := 2 ^ 64.
Definition in_range (z : Z) : Prop := 0 <= z < modulus.
Definition wrap (z : Z) : Z := z mod modulus.
Definition add (x y : Z) : Z := wrap (x + y).
Definition shl (x n : Z) : Z := wrap (Z.shiftl x n).
Definition shr (x n : Z) : Z := Z.shiftr x n.
Definition xor (x y : Z) : Z := Z.lxor x y.
End SizeT.

(** [cl_uint]: unsigned, 32 bits.  [cl_int]: signed, 32 bits. *)
Module UInt32.
Definition wrap (z : Z) : Z := z mod 2 ^ 32.
Definition add (x y : Z) : Z := wrap (x + y).
End UInt32.

Module Int32.
Definition wrap (z : Z) : Z := (z + 2 ^ 31) mod 2 ^ 32 - 2 ^ 31.
End Int32.

(** ** Fatal failures *)

(** The outcome of code that may throw. *)
Inductive Result (A : Type) : Type :=
| Ok (a : A)
| Fatal (msg : string).
Arguments Ok {A} a.
Arguments Fatal {A} msg.

Definition ret {A} (a : A) : Result A := Ok a.

Definition bind {A B} (m : Result A) (k : A -> Result B) : Result B :=
  match m with
  | Ok a => k a
  | Fatal msg => Fatal msg
  end.

Declare Scope result_scope.
Delimit Scope result_scope with result.
Notation "x <- m ;; k" := (bind m (fun x => k))
  (at level 61, m at next level, right associativity) : result_scope.
Notation "m ;; k" := (bind m (fun _ => k))
  (at level 61, right associativity) : result_scope.
Local Open Scope result_scope.

(** Modelled from the spec: the [ORT_ENFORCE] macro of core/common is not
    among the sources.  A violated condition is a programming error and is
    fatal: the macro throws and nothing after it runs. *)
Definition ORT_ENFORCE (cond : bool) (msg : string) : Result unit :=
  if cond then Ok tt else Fatal msg.

(** Modelled from the spec: [TensorShape] of core/framework is not among the
    sources.  A shape is the sequence of its [int64_t] dimensions;
    [NumDimensions] is its rank and [shape[i]] its i-th dimension.  Indexing
    past the rank is a contract violation of the span behind the shape, and
    fatal. *)
Definition TensorShape : Type := list Z.

Definition NumDimensions (shape : TensorShape) : Z := Z.of_nat (List.length shape).

Definition dim (shape : TensorShape) (i : nat) : Result Z :=
  match nth_error shape i with
  | Some d => Ok d
  | None => Fatal "TensorShape index out of range"
  end.

(** ** NDRange *)

Record NDRange : Type := mkNDRange {
  size_ : Z;            (* uint8_t *)
  values_ : list Z      (* size_t[3] *)
}.

Module NDRange_.
(** [NDRange()] *)
Definition make0 : NDRange := mkNDRange 0 [0; 0; 0].
(** [NDRange(T x)] *)
Definition make1 (x : Z) : NDRange := mkNDRange 1 [SizeT.wrap x; 0; 0].
(** [NDRange(T1 x, T2 y)] *)
Definition make2 (x y : Z) : NDRange :=
  mkNDRange 2 [SizeT.wrap x; SizeT.wrap y; 0].
(** [NDRange(T1 x, T2 y, T3 z)] *)
Definition make3 (x y z : Z) : NDRange :=
  mkNDRange 3 [SizeT.wrap x; SizeT.wrap y; SizeT.wrap z].

Definition Size (r : NDRange) : Z := size_ r.

(** [const size_t* Data()]: [None] is the null pointer, [Some a] a pointer
    to the backing array [a]. *)
Definition Data (r : NDRange) : option (list Z) :=
  if negb (size_ r =? 0) then Some (values_ r) else None.
End NDRange_.

(** ** CeilDiv and RoundToMultiple *)

(** Both overloads of [CeilDiv] have the body [(a - 1) / b + 1]; the
    instantiation embedded here is the one every caller in this file uses,
    [T1 = int64_t] with the divisor promoted to [int64_t]. *)
Definition CeilDiv (a b : Z) : Z :=
  Int64.add (Int64.div (Int64.sub a 1) b) 1.

Definition RoundToMultiple (a m : Z) : Z :=
  Int64.mul (CeilDiv a m) m.

(** The mathematical ceiling of [a / b] for positive [b], as the layout table
    of the specification writes it. *)
Definition ceil_quotient (a b : Z) : Z := (a + b - 1) / b.

(** ** Image2DDesc *)

(** [class Image2DDesc : private std::pair<int64_t, int64_t>] *)
Record Image2DDesc : Type := mkImage2DDesc {
  first : Z;
  second : Z
}.

Module Image2DDesc_.
Definition PackFromTensor1D (shape : TensorShape) : Result Image2DDesc :=
  ORT_ENFORCE (NumDimensions shape =? 1) "shape.NumDimensions() == 1" ;;
  s0 <- dim shape 0 ;;
  ret (mkImage2DDesc 1024 (CeilDiv s0 (4 * 1024))).

Definition PackFromTensor2D (shape : TensorShape) : Result Image2DDesc :=
  ORT_ENFORCE (NumDimensions shape =? 2) "shape.NumDimensions() == 2" ;;
  s0 <- dim shape 0 ;;
  s1 <- dim shape 1 ;;
  ret (mkImage2DDesc (CeilDiv s0 4) s1).

Definition PackFromTensorNCHW (shape : TensorShape) : Result Image2DDesc :=
  ORT_ENFORCE (NumDimensions shape =? 4) "shape.NumDimensions() == 4" ;;
  N <- dim shape 0 ;;
  C <- dim shape 1 ;;
  H <- dim shape 2 ;;
  W <- dim shape 3 ;;
  let c := 4 in
  let Cc := CeilDiv C c in
  ret (mkImage2DDesc (Int64.mul Cc W) (Int64.mul N H)).

Definition PackFromTensorNCHWc (shape : TensorShape) : Result Image2DDesc :=
  ORT_ENFORCE (NumDimensions shape =? 5) "shape.NumDimensions() == 5" ;;
  N <- dim shape 0 ;;
  Cc <- dim shape 1 ;;
  H <- dim shape 2 ;;
  W <- dim shape 3 ;;
  c <- dim shape 4 ;;
  ORT_ENFORCE (c =? 4) "c == 4" ;;
  ret (mkImage2DDesc (Int64.mul Cc W) (Int64.mul N H)).

Definition PackFromTensor (shape : TensorShape) : Result Image2DDesc :=
  match NumDimensions shape with
  | 1 => PackFromTensor1D shape
  | 2 => PackFromTensor2D shape
  | 4 => PackFromTensorNCHW shape
  | 5 => PackFromTensorNCHWc shape
  | _ => ret (mkImage2DDesc 0 0)
  end.

Definition PackFromConv2DWeight (shape : TensorShape) : Result Image2DDesc :=
  ORT_ENFORCE (NumDimensions shape =? 4) "shape.NumDimensions() == 4" ;;
  C_o <- dim shape 0 ;;
  C_i <- dim shape 1 ;;
  K_h <- dim shape 2 ;;
  K_w <- dim shape 3 ;;
  ret (mkImage2DDesc C_i (Int64.mul (Int64.mul (CeilDiv C_o 4) K_h) K_w)).

Definition PackFromWinogradTransform (shape : TensorShape)
  : Result Image2DDesc :=
  ORT_ENFORCE (NumDimensions shape =? 4) "shape.NumDimensions() == 4" ;;
  C_o <- dim shape 0 ;;
  C_i <- dim shape 1 ;;
  let K_h := 4 in
  let K_w := 4 in
  ret (mkImage2DDesc (Int64.mul (CeilDiv C_i 4) K_h)
                     (Int64.mul 16 (CeilDiv C_o 4))).

Definition PackFromDepthwiseConv2DWeight (shape : TensorShape)
  : Result Image2DDesc :=
  ORT_ENFORCE (NumDimensions shape =? 4) "shape.NumDimensions() == 4" ;;
  C_o <- dim shape 0 ;;
  C_i <- dim shape 1 ;;
  K_h <- dim shape 2 ;;
  K_w <- dim shape 3 ;;
  ret (mkImage2DDesc (Int64.mul (Int64.mul K_h K_w) C_i) (CeilDiv C_o 4)).

Definition Height (d : Image2DDesc) : Z := second d.
Definition Width (d : Image2DDesc) : Z := first d.
Definition UHeight (d : Image2DDesc) : Z := SizeT.wrap (second d).
Definition UWidth (d : Image2DDesc) : Z := SizeT.wrap (first d).

Definition AsNDRange (d : Image2DDesc) : NDRange :=
  NDRange_.make2 (UWidth d) (UHeight d).

(** [operator==] *)
Definition eqb (d other : Image2DDesc) : bool :=
  (Width d =? Width other) && (Height d =? Height other).
End Image2DDesc_.

(** [HashCombine], on [size_t]. *)
Definition HashCombine (a b : Z) : Z :=
  SizeT.xor b
    (SizeT.add (SizeT.add (SizeT.add b 2654435769 (* 0x9e3779b9 *))
                          (SizeT.shl a 6))
               (SizeT.shr a 2)).

Section Hash.
(** [std::hash<int64_t>] belongs to the C++ standard library; all that is
    known of it is that it is a function of its argument. *)
Variable std_hash_int64 : Z -> Z.

(** [std::hash<Image2DDesc>::operator()] *)
Definition hash_Image2DDesc (desc : Image2DDesc) : Z :=
  HashCombine (std_hash_int64 (Image2DDesc_.Width desc))
              (std_hash_int64 (Image2DDesc_.Height desc)).
End Hash.


(** ** The OpenCL driver *)

(** Handles ([cl_mem], [cl_kernel]) are addresses, 0 the null pointer; a
    status is a [cl_int].  The constants carry the values of the Khronos
    header [CL/cl.h]. *)
Definition CL_SUCCESS : Z := 0.
Definition CL_MEM_OBJECT_BUFFER : Z := 4336.    (* 0x10F0 *)
Definition CL_MEM_OBJECT_IMAGE2D : Z := 4337.   (* 0x10F1 *)

(** What the [arg_value] pointer of [clSetKernelArg] points to. *)
Inductive ArgValue : Type :=
| ArgNull                      (* nullptr: local memory of arg_size bytes *)
| ArgInts (v : list Z)         (* a vector of cl_int *)
| ArgObject (bytes : list Z)   (* the object representation of a value *)
| ArgMem (mem : Z).            (* a cl_mem handle *)

(** One call into the driver, with the status it returned. *)
Inductive DriverCall : Type :=
| SetKernelArgCall (kernel arg_index arg_size : Z) (arg_value : ArgValue)
                   (status : Z)
| GetMemObjectInfoCall (mem : Z) (status : Z).

(** The driver answers each call from the history of calls so far. *)
Record Driver : Type := mkDriver {
  clSetKernelArg : list DriverCall -> Z -> Z -> Z -> ArgValue -> Z;
  clGetMemObjectInfo : list DriverCall -> Z -> Z * Z  (* status, CL_MEM_TYPE *)
}.

Definition is_SetKernelArg (c : DriverCall) : bool :=
  match c with
  | SetKernelArgCall _ _ _ _ _ => true
  | GetMemObjectInfoCall _ _ => false
  end.

(** The argument-binding calls of a log, oldest first. *)
Definition bindings (log : list DriverCall) : list DriverCall :=
  filter is_SetKernelArg log.

(** Code that calls the driver and may throw: the log of driver calls is
    threaded through, and a throw keeps the log written so far. *)
Definition CL (A : Type) : Type := list DriverCall -> Result A * list DriverCall.

Definition cl_ret {A} (a : A) : CL A := fun log => (Ok a, log).

Definition cl_bind {A B} (m : CL A) (k : A -> CL B) : CL B :=
  fun log =>
    match m log with
    | (Ok a, log') => k a log'
    | (Fatal msg, log') => (Fatal msg, log')
    end.

Definition cl_lift {A} (r : Result A) : CL A := fun log => (r, log).

Declare Scope cl_scope.
Delimit Scope cl_scope with cl.
Notation "x <- m ;; k" := (cl_bind m (fun x => k))
  (at level 61, m at next level, right associativity) : cl_scope.
Notation "m ;; k" := (cl_bind m (fun _ => k))
  (at level 61, right associativity) : cl_scope.

(** Modelled from the spec: [Tensor] of core/framework is not among the
    sources.  A tensor gives its raw device handle and its logical shape. *)
Record Tensor : Type := mkTensor {
  DataRaw : Z;
  Shape : TensorShape
}.

(** An argument of the overloaded [SetBuffer] / [SetImage2D]: a handle or a
    tensor. *)
Inductive MemArg : Type :=
| OfMem (arg : Z)
| OfTensor (arg : Tensor).

Record KernelLauncher : Type := mkKernelLauncher {
  kernel_ : Z;                (* cl_kernel *)
  index_ : Z;                 (* cl_uint *)
  err_ : Z;                   (* cl_int *)
  err_index_ : option Z       (* cl_uint; None until first written *)
}.

Section Provider.
Local Open Scope cl_scope.

Variable drv : Driver.
(** The build mode: [true] unless NDEBUG is defined. *)
Variable USE_CL_CHECKED_CAST : bool.

Definition call_clSetKernelArg (kernel arg_index arg_size : Z)
  (arg_value : ArgValue) : CL Z :=
  fun log =>
    let status := clSetKernelArg drv log kernel arg_index arg_size arg_value in
    (Ok status,
     log ++ [SetKernelArgCall kernel arg_index arg_size arg_value status]).

Definition call_clGetMemObjectInfo (mem : Z) : CL (Z * Z) :=
  fun log =>
    let answer := clGetMemObjectInfo drv log mem in
    (Ok answer, log ++ [GetMemObjectInfoCall mem (fst answer)]).

Definition ORT_THROW_IF_CL_ERROR (error_code : Z) : CL unit :=
  if negb (error_code =? CL_SUCCESS)
  then cl_lift (Fatal "OpenCL Error")
  else cl_ret tt.

Definition CL_CHECK_MEM_OBJECT_IS_BUFFER (mem : Z) : CL unit :=
  if USE_CL_CHECKED_CAST then
    answer <- call_clGetMemObjectInfo mem ;;
    ORT_THROW_IF_CL_ERROR (fst answer) ;;
    cl_lift (ORT_ENFORCE (snd answer =? CL_MEM_OBJECT_BUFFER) "is not Buffer")
  else cl_ret tt.

Definition CL_CHECK_MEM_OBJECT_IS_IMAGE_2D (mem : Z) : CL unit :=
  if USE_CL_CHECKED_CAST then
    answer <- call_clGetMemObjectInfo mem ;;
    ORT_THROW_IF_CL_ERROR (fst answer) ;;
    cl_lift (ORT_ENFORCE (snd answer =? CL_MEM_OBJECT_IMAGE2D) "is not Image2D")
  else cl_ret tt.

Definition CL_BUFFER_FROM_TENSOR (TENSOR : Tensor) : CL Z :=
  if USE_CL_CHECKED_CAST then
    let ptr := DataRaw TENSOR in
    (if negb (ptr =? 0) then CL_CHECK_MEM_OBJECT_IS_BUFFER ptr else cl_ret tt) ;;
    cl_ret ptr
  else cl_ret (DataRaw TENSOR).

Definition CL_IMAGE2D_FROM_TENSOR (TENSOR : Tensor) : CL Z :=
  if USE_CL_CHECKED_CAST then
    let ptr := DataRaw TENSOR in
    (if negb (ptr =? 0) then CL_CHECK_MEM_OBJECT_IS_IMAGE_2D ptr else cl_ret tt) ;;
    cl_ret ptr
  else cl_ret (DataRaw TENSOR).

(** ** KernelLauncher *)

Definition KernelLauncher_ctor (kernel : Z) : KernelLauncher :=
  mkKernelLauncher kernel 0 CL_SUCCESS None.

Definition Kernel (l : KernelLauncher) : Z := kernel_ l.

Definition SKIP_IF_ERRORED (expr : CL Z) (l : KernelLauncher)
  : CL KernelLauncher :=
  if err_ l =? CL_SUCCESS then
    e <- expr ;;
    cl_ret (mkKernelLauncher (kernel_ l) (index_ l) e (Some (index_ l)))
  else cl_ret l.

(** [index_ += 1] *)
Definition advance (l : KernelLauncher) : KernelLauncher :=
  mkKernelLauncher (kernel_ l) (UInt32.add (index_ l) 1) (err_ l) (err_index_ l).

Definition SetShmem (num_bytes : Z) (l : KernelLauncher) : CL KernelLauncher :=
  l1 <- SKIP_IF_ERRORED
          (call_clSetKernelArg (kernel_ l) (index_ l) (SizeT.wrap num_bytes)
             ArgNull) l ;;
  cl_ret (advance l1).

Definition SetInt2 (v1 v2 : Z) (l : KernelLauncher) : CL KernelLauncher :=
  let tmp := [Int32.wrap v1; Int32.wrap v2] in
  l1 <- SKIP_IF_ERRORED
          (call_clSetKernelArg (kernel_ l) (index_ l) 8 (ArgInts tmp)) l ;;
  cl_ret (advance l1).

(** [cl_int3] has the storage of four [cl_int]; the brace initialiser leaves
    the fourth lane zero. *)
Definition SetInt3 (v1 v2 v3 : Z) (l : KernelLauncher) : CL KernelLauncher :=
  let tmp := [Int32.wrap v1; Int32.wrap v2; Int32.wrap v3; 0] in
  l1 <- SKIP_IF_ERRORED
          (call_clSetKernelArg (kernel_ l) (index_ l) 16 (ArgInts tmp)) l ;;
  cl_ret (advance l1).

Definition SetInt4 (v1 v2 v3 v4 : Z) (l : KernelLauncher) : CL KernelLauncher :=
  let tmp := [Int32.wrap v1; Int32.wrap v2; Int32.wrap v3; Int32.wrap v4] in
  l1 <- SKIP_IF_ERRORED
          (call_clSetKernelArg (kernel_ l) (index_ l) 16 (ArgInts tmp)) l ;;
  cl_ret (advance l1).

(** [SetArg<T>(const T& arg)]: [sizeof_T] bytes at [&arg]. *)
Definition SetArg (sizeof_T : Z) (arg : list Z) (l : KernelLauncher)
  : CL KernelLauncher :=
  l1 <- SKIP_IF_ERRORED
          (call_clSetKernelArg (kernel_ l) (index_ l) sizeof_T (ArgObject arg))
          l ;;
  cl_ret (advance l1).

(** [SetBuffer(cl_mem arg)]; [sizeof(cl_mem)] is 8. *)
Definition SetBuffer_mem (arg : Z) (l : KernelLauncher) : CL KernelLauncher :=
  l1 <- SKIP_IF_ERRORED
          (call_clSetKernelArg (kernel_ l) (index_ l) 8 (ArgMem arg)) l ;;
  cl_ret (advance l1).

(** [SetBuffer(const Tensor& arg)] *)
Definition SetBuffer_tensor (arg : Tensor) (l : KernelLauncher)
  : CL KernelLauncher :=
  ptr <- CL_BUFFER_FROM_TENSOR arg ;;
  SetBuffer_mem ptr l.

Definition SetBuffer (arg : MemArg) (l : KernelLauncher) : CL KernelLauncher :=
  match arg with
  | OfMem m => SetBuffer_mem m l
  | OfTensor t => SetBuffer_tensor t l
  end.

(** [SetBuffers(arg, other)] and [SetBuffers(arg, args...)]: the parameter
    pack beyond the first two arguments is [rest]. *)
Fixpoint SetBuffers (arg other : MemArg) (rest : list MemArg)
  (l : KernelLauncher) : CL KernelLauncher :=
  match rest with
  | [] => l1 <- SetBuffer arg l ;; SetBuffer other l1
  | next :: rest' => l1 <- SetBuffer arg l ;; SetBuffers other next rest' l1
  end.

Definition SetImage2D_mem (arg : Z) (l : KernelLauncher) : CL KernelLauncher :=
  l1 <- SKIP_IF_ERRORED
          (call_clSetKernelArg (kernel_ l) (index_ l) 8 (ArgMem arg)) l ;;
  cl_ret (advance l1).

Definition SetImage2D_tensor (arg : Tensor) (l : KernelLauncher)
  : CL KernelLauncher :=
  ptr <- CL_IMAGE2D_FROM_TENSOR arg ;;
  SetImage2D_mem ptr l.

Definition SetImage2D (arg : MemArg) (l : KernelLauncher) : CL KernelLauncher :=
  match arg with
  | OfMem m => SetImage2D_mem m l
  | OfTensor t => SetImage2D_tensor t l
  end.

Fixpoint SetImage2Ds (arg other : MemArg) (rest : list MemArg)
  (l : KernelLauncher) : CL KernelLauncher :=
  match rest with
  | [] => l1 <- SetImage2D arg l ;; SetImage2D other l1
  | next :: rest' => l1 <- SetImage2D arg l ;; SetImage2Ds other next rest' l1
  end.

(** *** Chains of binding calls *)

(** One binding call of a fluent chain [launcher.SetX(...).SetY(...)...]. *)
Inductive BindCall : Type :=
| DoSetShmem (num_bytes : Z)
| DoSetInt2 (v1 v2 : Z)
| DoSetInt3 (v1 v2 v3 : Z)
| DoSetInt4 (v1 v2 v3 v4 : Z)
| DoSetArg (sizeof_T : Z) (arg : list Z)
| DoSetBuffer (arg : MemArg)
| DoSetBuffers (arg other : MemArg) (rest : list MemArg)
| DoSetImage2D (arg : MemArg)
| DoSetImage2Ds (arg other : MemArg) (rest : list MemArg).

Definition bind_call (c : BindCall) (l : KernelLauncher) : CL KernelLauncher :=
  match c with
  | DoSetShmem n => SetShmem n l
  | DoSetInt2 v1 v2 => SetInt2 v1 v2 l
  | DoSetInt3 v1 v2 v3 => SetInt3 v1 v2 v3 l
  | DoSetInt4 v1 v2 v3 v4 => SetInt4 v1 v2 v3 v4 l
  | DoSetArg sz a => SetArg sz a l
  | DoSetBuffer a => SetBuffer a l
  | DoSetBuffers a b rest => SetBuffers a b rest l
  | DoSetImage2D a => SetImage2D a l
  | DoSetImage2Ds a b rest => SetImage2Ds a b rest l
  end.

Fixpoint bind_chain (cs : list BindCall) (l : KernelLauncher)
  : CL KernelLauncher :=
  match cs with
  | [] => cl_ret l
  | c :: cs' => l1 <- bind_call c l ;; bind_chain cs' l1
  end.

End Provider.

(** The number of argument slots a binding call fills. *)
Definition slots (c : BindCall) : Z :=
  match c with
  | DoSetBuffers _ _ rest | DoSetImage2Ds _ _ rest =>
      2 + Z.of_nat (List.length rest)
  | _ => 1
  end.

Definition chain_slots (cs : list BindCall) : Z :=
  fold_right (fun c n => slots c + n) 0 cs.


(** ** Vocabulary of the launcher's properties *)

(** The shape every primitive binding method has: one guarded call of
    [clSetKernelArg] for the current slot, then [index_ += 1]. *)
Definition bind_slot (drv : Driver) (arg_size : Z) (arg_value : ArgValue)
  (l : KernelLauncher) : CL KernelLauncher :=
  cl_bind
    (SKIP_IF_ERRORED
       (call_clSetKernelArg drv (kernel_ l) (index_ l) arg_size arg_value) l)
    (fun l1 => cl_ret (advance l1)).

Definition status_of (c : DriverCall) : Z :=
  match c with
  | SetKernelArgCall _ _ _ _ status => status
  | GetMemObjectInfoCall _ status => status
  end.

Definition succeeded (c : DriverCall) : Prop := status_of c = CL_SUCCESS.

Definition index_ok (l : KernelLauncher) : Prop := 0 <= index_ l < 2 ^ 32.

(** The launcher's error fields agree with the log: either nothing was bound
    yet and the status is clear, or the status and the error index are those
    of the most recent binding call, every earlier one having succeeded. *)
Definition consistent (l : KernelLauncher) (log : list DriverCall) : Prop :=
  (bindings log = [] /\ err_ l = CL_SUCCESS) \/
  (exists earlier i sz v,
     bindings log = earlier ++ [SetKernelArgCall (kernel_ l) i sz v (err_ l)] /\
     Forall succeeded earlier /\
     err_index_ l = Some i).

(** What a launcher method that fills [n] slots guarantees. *)
Definition binder_ok (n : Z) (f : KernelLauncher -> CL KernelLauncher) : Prop :=
  forall l log r log',
    index_ok l -> f l log = (r, log') ->
    (exists during,
       bindings log' = bindings log ++ during /\
       (err_ l <> CL_SUCCESS -> during = [])) /\
    (forall l',
       r = Ok l' ->
       index_ok l' /\
       kernel_ l' = kernel_ l /\
       index_ l' = UInt32.wrap (index_ l + n) /\
       (consistent l log -> consistent l' log') /\
       (err_ l <> CL_SUCCESS ->
        err_ l' = err_ l /\ err_index_ l' = err_index_ l)).

(** ** Sample drivers *)

(** A driver that reports every memory object as an image. *)
Definition image_only_driver : Driver :=
  mkDriver (fun _ _ _ _ _ => CL_SUCCESS)
           (fun _ _ => (CL_SUCCESS, CL_MEM_OBJECT_IMAGE2D)).

Definition CL_INVALID_ARG_INDEX : Z := -49.

(** A driver whose kernel has [n] arguments: binding a slot from [n] on is
    rejected. *)
Definition arity_driver (n : Z) : Driver :=
  mkDriver (fun _ _ arg_index _ _ =>
              if arg_index <? n then CL_SUCCESS else CL_INVALID_ARG_INDEX)
           (fun _ _ => (CL_SUCCESS, CL_MEM_OBJECT_BUFFER)).


(** ** Vocabulary of the further properties *)

(** The number of elements of a tensor of the given shape. *)
Definition num_elements (shape : TensorShape) : Z := fold_right Z.mul 1 shape.

(** What every constructor of [NDRange] establishes: three lanes of
    [size_t], a rank of at most three, zero in the lanes past the rank, and
    a null [Data()] exactly at rank zero. *)
Definition NDRange_wf (r : NDRange) : Prop :=
  List.length (values_ r) = 3%nat /\
  0 <= NDRange_.Size r <= 3 /\
  Forall SizeT.in_range (values_ r) /\
  (forall i, NDRange_.Size r <= Z.of_nat i -> nth i (values_ r) 0 = 0) /\
  (NDRange_.Data r = None <-> NDRange_.Size r = 0).

(** A binding call is tensor-free when all its arguments are raw handles or
    scalars. *)
Definition handle_only (a : MemArg) : bool :=
  match a with
  | OfMem _ => true
  | OfTensor _ => false
  end.

Definition tensor_free (c : BindCall) : bool :=
  match c with
  | DoSetBuffer a | DoSetImage2D a => handle_only a
  | DoSetBuffers a b rest | DoSetImage2Ds a b rest =>
      handle_only a && handle_only b && forallb handle_only rest
  | _ => true
  end.

(** The elementary steps a chain of binding calls is made of: one guarded
    binding of the current slot, or the extraction of a tensor's handle
    ahead of one. *)
Inductive Atom : Type :=
| ABind (arg_size : Z) (arg_value : ArgValue)
| AExtractBuffer (t : Tensor)
| AExtractImage2D (t : Tensor).

Definition run_atom (drv : Driver) (USE_CL_CHECKED_CAST : bool) (a : Atom)
  (l : KernelLauncher) : CL KernelLauncher :=
  match a with
  | ABind sz v => bind_slot drv sz v l
  | AExtractBuffer t =>
      cl_bind (CL_BUFFER_FROM_TENSOR drv USE_CL_CHECKED_CAST t)
              (fun _ => cl_ret l)
  | AExtractImage2D t =>
      cl_bind (CL_IMAGE2D_FROM_TENSOR drv USE_CL_CHECKED_CAST t)
              (fun _ => cl_ret l)
  end.

Fixpoint run_atoms (drv : Driver) (USE_CL_CHECKED_CAST : bool)
  (atoms : list Atom) (l : KernelLauncher) : CL KernelLauncher :=
  match atoms with
  | [] => cl_ret l
  | a :: atoms' =>
      cl_bind (run_atom drv USE_CL_CHECKED_CAST a l)
              (run_atoms drv USE_CL_CHECKED_CAST atoms')
  end.

Definition atoms_of_buffer (a : MemArg) : list Atom :=
  match a with
  | OfMem m => [ABind 8 (ArgMem m)]
  | OfTensor t => [AExtractBuffer t; ABind 8 (ArgMem (DataRaw t))]
  end.

Definition atoms_of_image2d (a : MemArg) : list Atom :=
  match a with
  | OfMem m => [ABind 8 (ArgMem m)]
  | OfTensor t => [AExtractImage2D t; ABind 8 (ArgMem (DataRaw t))]
  end.

Definition atoms_of_call (c : BindCall) : list Atom :=
  match c with
  | DoSetShmem n => [ABind (SizeT.wrap n) ArgNull]
  | DoSetInt2 v1 v2 => [ABind 8 (ArgInts [Int32.wrap v1; Int32.wrap v2])]
  | DoSetInt3 v1 v2 v3 =>
      [ABind 16 (ArgInts [Int32.wrap v1; Int32.wrap v2; Int32.wrap v3; 0])]
  | DoSetInt4 v1 v2 v3 v4 =>
      [ABind 16 (ArgInts [Int32.wrap v1; Int32.wrap v2; Int32.wrap v3;
                          Int32.wrap v4])]
  | DoSetArg sz a => [ABind sz (ArgObject a)]
  | DoSetBuffer a => atoms_of_buffer a
  | DoSetBuffers a b rest => flat_map atoms_of_buffer (a :: b :: rest)
  | DoSetImage2D a => atoms_of_image2d a
  | DoSetImage2Ds a b rest => flat_map atoms_of_image2d (a :: b :: rest)
  end.

Definition atoms_of_chain (cs : list BindCall) : list Atom :=
  flat_map atoms_of_call cs.

Definition is_ABind (a : Atom) : bool :=
  match a with
  | ABind _ _ => true
  | _ => false
  end.

(** The slots a list of elementary steps binds. *)
Definition atom_slots (atoms : list Atom) : Z :=
  Z.of_nat (List.length (filter is_ABind atoms)).

(** The binding calls [bs], oldest first, fill the slots of [kernel] in
    order: the j-th of them binds argument index j (as a [cl_uint]). *)
Definition in_slot_order (kernel : Z) (bs : list DriverCall) : Prop :=
  forall j e,
    nth_error bs j = Some e ->
    exists sz v st,
      e = SetKernelArgCall kernel (UInt32.wrap (Z.of_nat j)) sz v st.

(** The memory-object queries of a log, oldest first. *)
Definition queries (log : list DriverCall) : list DriverCall :=
  filter (fun c => negb (is_SetKernelArg c)) log.

(** A driver that accepts every binding and reports every memory object as
    a buffer. *)
Definition buffer_only_driver : Driver :=
  mkDriver (fun _ _ _ _ _ => CL_SUCCESS)
           (fun _ _ => (CL_SUCCESS, CL_MEM_OBJECT_BUFFER)).


(** * Properties *)

(** ** Arithmetic of the fixed-width types *)

Lemma Int64_wrap_small (z : Z) : Int64.in_range z -> Int64.wrap z = z.
Proof.
  unfold Int64.in_range, Int64.min_signed, Int64.max_signed, Int64.wrap.
  intros Hz. rewrite Z.mod_small; lia.
Qed.

Lemma Int64_wrap_range (z : Z) : Int64.in_range (Int64.wrap z).
Proof.
  unfold Int64.in_range, Int64.min_signed, Int64.max_signed, Int64.wrap.
  pose proof (Z.mod_pos_bound (z + 2 ^ 63) (2 ^ 64)). lia.
Qed.

Lemma Int64_mul_exact (x y : Z) :
  Int64.in_range (x * y) -> Int64.mul x y = x * y.
Proof. apply Int64_wrap_small. Qed.

Lemma SizeT_wrap_small (z : Z) : SizeT.in_range z -> SizeT.wrap z = z.
Proof. unfold SizeT.in_range, SizeT.wrap. intros Hz. apply Z.mod_small, Hz. Qed.

Lemma UInt32_add_wrap (i a b : Z) :
  UInt32.add (UInt32.wrap (i + a)) b = UInt32.wrap (i + (a + b)).
Proof.
  unfold UInt32.add, UInt32.wrap.
  rewrite Zplus_mod_idemp_l. f_equal. lia.
Qed.

(** ** CeilDiv *)

(** On positive arguments no intermediate of [(a - 1) / b + 1] leaves the
    range of [int64_t], and truncating division is flooring division. *)
Lemma CeilDiv_pos (a b : Z) :
  1 <= a <= Int64.max_signed -> 1 <= b <= Int64.max_signed ->
  CeilDiv a b = (a - 1) / b + 1.
Proof.
  intros Ha Hb. unfold CeilDiv, Int64.add, Int64.div, Int64.sub.
  unfold Int64.max_signed in *.
  assert (Hq : 0 <= (a - 1) / b <= a - 1).
  { split.
    - apply Z.div_pos; lia.
    - apply Z.div_le_upper_bound; nia. }
  rewrite (Int64_wrap_small (a - 1))
    by (unfold Int64.in_range, Int64.min_signed, Int64.max_signed; lia).
  rewrite Z.quot_div_nonneg by lia.
  rewrite (Int64_wrap_small ((a - 1) / b))
    by (unfold Int64.in_range, Int64.min_signed, Int64.max_signed; lia).
  apply Int64_wrap_small.
  unfold Int64.in_range, Int64.min_signed, Int64.max_signed; lia.
Qed.

Lemma ceil_quotient_bounds (a b : Z) :
  0 < b -> a <= ceil_quotient a b * b < a + b.
Proof.
  intros Hb. unfold ceil_quotient.
  pose proof (Z.div_mod (a + b - 1) b ltac:(lia)) as E.
  pose proof (Z.mod_pos_bound (a + b - 1) b Hb) as B.
  nia.
Qed.

(** [ceil_quotient a b] is the least integer whose product with [b] reaches
    [a]: the ceiling of the rational [a / b]. *)
Lemma ceil_quotient_least (a b q : Z) :
  0 < b -> a <= q * b -> ceil_quotient a b <= q.
Proof.
  intros Hb Hq. pose proof (ceil_quotient_bounds a b Hb). nia.
Qed.

Lemma CeilDiv_is_ceiling (a b : Z) :
  1 <= a <= Int64.max_signed -> 1 <= b <= Int64.max_signed ->
  CeilDiv a b = ceil_quotient a b.
Proof.
  intros Ha Hb. rewrite CeilDiv_pos by assumption. unfold ceil_quotient.
  replace (a + b - 1) with (a - 1 + 1 * b) by lia.
  rewrite Z.div_add by lia. reflexivity.
Qed.

(** At zero the formula is one too large for every divisor above 1: the
    truncating division turns [-1 / b] into 0. *)
Lemma CeilDiv_zero (b : Z) :
  2 <= b <= Int64.max_signed -> CeilDiv 0 b = 1.
Proof.
  intros Hb. unfold CeilDiv, Int64.add, Int64.div, Int64.sub.
  change (Int64.wrap (0 - 1)) with (- (1)).
  rewrite Z.quot_opp_l by lia.
  rewrite Z.quot_small by lia.
  reflexivity.
Qed.

(** C2 (as amended): for positive [int64_t] values [a] and [b],
    [CeilDiv a b * b >= a] and [CeilDiv a b * b < a + b]; and whenever that
    product is representable in [int64_t], [RoundToMultiple a b] is the least
    multiple of [b] that is greater than or equal to [a]. *)
Theorem CeilDiv_RoundToMultiple_positive (a b : Z) :
  1 <= a <= Int64.max_signed -> 1 <= b <= Int64.max_signed ->
  (CeilDiv a b * b >= a /\ CeilDiv a b * b < a + b) /\
  (CeilDiv a b * b <= Int64.max_signed ->
   (b | RoundToMultiple a b) /\
   RoundToMultiple a b >= a /\
   forall x, (b | x) -> x >= a -> RoundToMultiple a b <= x).
Proof.
  intros Ha Hb.
  pose proof (ceil_quotient_bounds a b ltac:(lia)) as Hbnd.
  rewrite <- (CeilDiv_is_ceiling a b Ha Hb) in Hbnd.
  split; [lia|].
  intros Hfit. unfold RoundToMultiple.
  rewrite Int64_mul_exact
    by (unfold Int64.in_range, Int64.min_signed, Int64.max_signed in *; lia).
  split; [exists (CeilDiv a b); reflexivity|].
  split; [lia|].
  intros x [k Hk] Hx. subst x.
  assert (CeilDiv a b <= k).
  { rewrite CeilDiv_is_ceiling by assumption.
    apply ceil_quotient_least; lia. }
  nia.
Qed.

Lemma CeilDiv_RoundToMultiple_positive_witness :
  (1 <= 9 <= Int64.max_signed) /\ (1 <= 4 <= Int64.max_signed) /\
  (CeilDiv 9 4 * 4 <= Int64.max_signed) /\
  (CeilDiv 9 4 * 4 >= 9 /\ CeilDiv 9 4 * 4 < 9 + 4) /\
  RoundToMultiple 9 4 >= 9.
Proof.
  assert (H9 : 1 <= 9 <= Int64.max_signed) by (unfold Int64.max_signed; lia).
  assert (H4 : 1 <= 4 <= Int64.max_signed) by (unfold Int64.max_signed; lia).
  assert (Hfit : CeilDiv 9 4 * 4 <= Int64.max_signed)
    by (vm_compute; discriminate).
  destruct (CeilDiv_RoundToMultiple_positive 9 4 H9 H4) as [Hb Hr].
  destruct (Hr Hfit) as [_ [Hge _]].
  repeat split; try assumption; try apply H9; try apply H4; apply Hb.
Defined.

(** C2, as stated, fails on the code: at [a = 0] the quotient is 1 instead of
    0, so the product is not below [a + b] and the rounded value is not the
    least multiple; and near the top of [int64_t] the rounded value wraps
    below [a]. *)
Lemma CeilDiv_RoundToMultiple_counterexample :
  (0 <= 0 /\ 0 < 2) /\
  ~ (CeilDiv 0 2 * 2 < 0 + 2) /\
  ~ (forall x, (2 | x) -> x >= 0 -> RoundToMultiple 0 2 <= x) /\
  ~ (RoundToMultiple Int64.max_signed 2 >= Int64.max_signed).
Proof.
  split; [lia|]. split; [|split].
  - vm_compute. intros H. discriminate H.
  - intros H. specialize (H 0 (Z.divide_0_r 2) ltac:(lia)).
    vm_compute in H. apply H. reflexivity.
  - vm_compute. intros H. apply H. reflexivity.
Qed.

(** ** Image2DDesc: the packing rules *)

Lemma rank_dispatch_default {A} (n : Z) (a1 a2 a4 a5 d : A) :
  n <> 1 -> n <> 2 -> n <> 4 -> n <> 5 ->
  match n with 1 => a1 | 2 => a2 | 4 => a4 | 5 => a5 | _ => d end = d.
Proof.
  intros H1 H2 H4 H5.
  destruct n as [|p|p]; try reflexivity.
  destruct p as [[[?|?|]|[?|?|]|]|[[?|?|]|[?|?|]|]|];
    try reflexivity; congruence.
Qed.

(** C3: on ranks 1, 2, 4 and 5 the generic packer returns exactly the outcome
    of [PackFromTensor1D], [PackFromTensor2D], [PackFromTensorNCHW] and
    [PackFromTensorNCHWc] respectively (a fatal failure of the rank-specific
    packer included), and on every other rank it returns the degenerate
    descriptor (0, 0). *)
Theorem PackFromTensor_dispatch (shape : TensorShape) :
  (NumDimensions shape = 1 ->
   Image2DDesc_.PackFromTensor shape = Image2DDesc_.PackFromTensor1D shape) /\
  (NumDimensions shape = 2 ->
   Image2DDesc_.PackFromTensor shape = Image2DDesc_.PackFromTensor2D shape) /\
  (NumDimensions shape = 4 ->
   Image2DDesc_.PackFromTensor shape = Image2DDesc_.PackFromTensorNCHW shape) /\
  (NumDimensions shape = 5 ->
   Image2DDesc_.PackFromTensor shape = Image2DDesc_.PackFromTensorNCHWc shape) /\
  (NumDimensions shape <> 1 -> NumDimensions shape <> 2 ->
   NumDimensions shape <> 4 -> NumDimensions shape <> 5 ->
   Image2DDesc_.PackFromTensor shape = Ok (mkImage2DDesc 0 0)).
Proof.
  unfold Image2DDesc_.PackFromTensor.
  repeat split; try (intros E; rewrite E; reflexivity).
  intros. apply rank_dispatch_default; assumption.
Qed.

Lemma PackFromTensor_dispatch_witness :
  Image2DDesc_.PackFromTensor [4097] = Ok (mkImage2DDesc 1024 2) /\
  Image2DDesc_.PackFromTensor [5; 7] = Ok (mkImage2DDesc 2 7) /\
  Image2DDesc_.PackFromTensor [1; 8; 3; 5] = Ok (mkImage2DDesc 10 3) /\
  Image2DDesc_.PackFromTensor [1; 2; 3; 5; 4] = Ok (mkImage2DDesc 10 3) /\
  Image2DDesc_.PackFromTensor [2; 3; 4] = Ok (mkImage2DDesc 0 0).
Proof.
  split; [|split; [|split; [|split]]].
  - rewrite (proj1 (PackFromTensor_dispatch [4097]) eq_refl). reflexivity.
  - rewrite (proj1 (proj2 (PackFromTensor_dispatch [5; 7])) eq_refl).
    reflexivity.
  - rewrite (proj1 (proj2 (proj2 (PackFromTensor_dispatch [1; 8; 3; 5])))
               eq_refl).
    reflexivity.
  - rewrite (proj1 (proj2 (proj2 (proj2
               (PackFromTensor_dispatch [1; 2; 3; 5; 4])))) eq_refl).
    reflexivity.
  - apply (proj2 (proj2 (proj2 (proj2 (PackFromTensor_dispatch [2; 3; 4])))));
      vm_compute; discriminate.
Defined.

(** C5: on a rank-5 shape [N; Cc; H; W; c] with [c = 4] the blocked packer
    returns (Cc * W, N * H), the products being those of [int64_t] (the
    mathematical products whenever these are representable); in particular
    [1; 2; 3; 5; 4] packs to (10, 3); and whenever [c] is not 4 the packer
    fails fatally. *)
Theorem PackFromTensorNCHWc_spec :
  (forall N Cc H W,
     Image2DDesc_.PackFromTensorNCHWc [N; Cc; H; W; 4]
     = Ok (mkImage2DDesc (Int64.mul Cc W) (Int64.mul N H))) /\
  (forall N Cc H W,
     Int64.in_range (Cc * W) -> Int64.in_range (N * H) ->
     Image2DDesc_.PackFromTensorNCHWc [N; Cc; H; W; 4]
     = Ok (mkImage2DDesc (Cc * W) (N * H))) /\
  Image2DDesc_.PackFromTensorNCHWc [1; 2; 3; 5; 4] = Ok (mkImage2DDesc 10 3) /\
  (forall N Cc H W c,
     c <> 4 ->
     exists msg, Image2DDesc_.PackFromTensorNCHWc [N; Cc; H; W; c] = Fatal msg).
Proof.
  split; [|split; [|split]].
  - reflexivity.
  - intros N Cc H W HW HH.
    unfold Image2DDesc_.PackFromTensorNCHWc. cbn.
    rewrite !Int64_mul_exact by assumption. reflexivity.
  - reflexivity.
  - intros N Cc H W c Hc.
    unfold Image2DDesc_.PackFromTensorNCHWc. cbn.
    destruct (c =? 4) eqn:E.
    + apply Z.eqb_eq in E. contradiction.
    + eexists. reflexivity.
Qed.

Lemma PackFromTensorNCHWc_spec_witness :
  Int64.in_range (2 * 5) /\ Int64.in_range (1 * 3) /\ 8 <> 4 /\
  Image2DDesc_.PackFromTensorNCHWc [1; 2; 3; 5; 4]
  = Ok (mkImage2DDesc (2 * 5) (1 * 3)) /\
  exists msg, Image2DDesc_.PackFromTensorNCHWc [1; 2; 3; 5; 8] = Fatal msg.
Proof.
  assert (H1 : Int64.in_range (2 * 5)) by (vm_compute; split; discriminate).
  assert (H2 : Int64.in_range (1 * 3)) by (vm_compute; split; discriminate).
  assert (H3 : 8 <> 4) by discriminate.
  split; [exact H1|]. split; [exact H2|]. split; [exact H3|]. split.
  - exact (proj1 (proj2 PackFromTensorNCHWc_spec) 1 2 3 5 H1 H2).
  - exact (proj2 (proj2 (proj2 PackFromTensorNCHWc_spec)) 1 2 3 5 8 H3).
Defined.

(** The 1-D rule on a non-empty tensor: width 1024 and the ceiling of
    [L / 4096] rows. *)
Lemma PackFromTensor1D_positive (L : Z) :
  1 <= L <= Int64.max_signed ->
  Image2DDesc_.PackFromTensor1D [L]
  = Ok (mkImage2DDesc 1024 (ceil_quotient L 4096)).
Proof.
  intros HL. unfold Image2DDesc_.PackFromTensor1D. cbn.
  change (4 * 1024) with 4096.
  rewrite CeilDiv_is_ceiling by (unfold Int64.max_signed in *; lia).
  reflexivity.
Qed.

Example PackFromTensor1D_4096 :
  Image2DDesc_.PackFromTensor1D [4096] = Ok (mkImage2DDesc 1024 1).
Proof. reflexivity. Qed.

Example PackFromTensor1D_4097 :
  Image2DDesc_.PackFromTensor1D [4097] = Ok (mkImage2DDesc 1024 2).
Proof. reflexivity. Qed.

(** C6: the code at the shape [0] of an empty 1-D tensor.  The rule returns
    one row, where the ceiling of [0 / 4096] is zero rows: [CeilDiv] is one
    too large at zero. *)
Theorem PackFromTensor1D_empty :
  Image2DDesc_.PackFromTensor1D [0] = Ok (mkImage2DDesc 1024 1) /\
  ceil_quotient 0 (4 * 1024) = 0.
Proof. split; reflexivity. Qed.

(** The fixed 4x4 transform rule on positive channel counts; the kernel
    dimensions of the shape are never read. *)
Lemma PackFromWinogradTransform_positive (C_o C_i K_h K_w : Z) :
  1 <= C_o <= Int64.max_signed -> 1 <= C_i <= Int64.max_signed ->
  Image2DDesc_.PackFromWinogradTransform [C_o; C_i; K_h; K_w]
  = Ok (mkImage2DDesc (Int64.mul (ceil_quotient C_i 4) 4)
                      (Int64.mul 16 (ceil_quotient C_o 4))).
Proof.
  intros Ho Hi. unfold Image2DDesc_.PackFromWinogradTransform. cbn.
  rewrite !CeilDiv_is_ceiling by (unfold Int64.max_signed in *; lia).
  reflexivity.
Qed.

Lemma PackFromWinogradTransform_ignores_kernel (C_o C_i K_h K_w K_h' K_w' : Z) :
  Image2DDesc_.PackFromWinogradTransform [C_o; C_i; K_h; K_w]
  = Image2DDesc_.PackFromWinogradTransform [C_o; C_i; K_h'; K_w'].
Proof. reflexivity. Qed.

(** C7: the code at the weight shape [4; 0; 4; 4], no input channel.  The
    rule returns width 4, where [ceil(0 / 4) * 4] is 0: [CeilDiv] is one too
    large at zero. *)
Theorem PackFromWinogradTransform_zero_channels :
  Image2DDesc_.PackFromWinogradTransform [4; 0; 4; 4]
  = Ok (mkImage2DDesc 4 16) /\
  ceil_quotient 0 4 * 4 = 0 /\ 16 * ceil_quotient 4 4 = 16.
Proof. repeat split. Qed.

(** C10: when the channel count [C] is a positive multiple of 4, the NCHW
    rule on [N; C; H; W] and the blocked rule on [N; C / 4; H; W; 4] return
    the same descriptor. *)
Theorem PackFromTensorNCHW_agrees_with_NCHWc (N C H W : Z) :
  0 < C <= Int64.max_signed -> (4 | C) ->
  Image2DDesc_.PackFromTensorNCHW [N; C; H; W]
  = Image2DDesc_.PackFromTensorNCHWc [N; C / 4; H; W; 4].
Proof.
  intros HC [q Hq].
  unfold Image2DDesc_.PackFromTensorNCHW, Image2DDesc_.PackFromTensorNCHWc.
  cbn.
  rewrite CeilDiv_pos by (unfold Int64.max_signed in *; lia).
  subst C.
  rewrite Z.div_mul by lia.
  replace (q * 4 - 1) with (3 + (q - 1) * 4) by lia.
  rewrite Z.div_add by lia.
  change (3 / 4) with 0.
  replace (0 + (q - 1) + 1) with q by lia.
  reflexivity.
Qed.

Lemma PackFromTensorNCHW_agrees_with_NCHWc_witness :
  0 < 8 <= Int64.max_signed /\ (4 | 8) /\
  Image2DDesc_.PackFromTensorNCHW [1; 8; 3; 5]
  = Image2DDesc_.PackFromTensorNCHWc [1; 8 / 4; 3; 5; 4].
Proof.
  assert (H8 : 0 < 8 <= Int64.max_signed) by (unfold Int64.max_signed; lia).
  assert (Hd : (4 | 8)) by (exists 2; reflexivity).
  split; [exact H8|]. split; [exact Hd|].
  exact (PackFromTensorNCHW_agrees_with_NCHWc 1 8 3 5 H8 Hd).
Defined.

(** ** Image2DDesc as a key *)

(** C4: two descriptors of equal width and equal height, whichever packing
    rules [pack1] and [pack2] produced them, compare equal under
    [operator==] and have the same [std::hash] value. *)
Theorem Image2DDesc_equal_dims_equal_key
  (std_hash_int64 : Z -> Z)
  (pack1 pack2 : TensorShape -> Result Image2DDesc)
  (shape1 shape2 : TensorShape) (d1 d2 : Image2DDesc) :
  pack1 shape1 = Ok d1 -> pack2 shape2 = Ok d2 ->
  Image2DDesc_.Width d1 = Image2DDesc_.Width d2 ->
  Image2DDesc_.Height d1 = Image2DDesc_.Height d2 ->
  Image2DDesc_.eqb d1 d2 = true /\
  hash_Image2DDesc std_hash_int64 d1 = hash_Image2DDesc std_hash_int64 d2.
Proof.
  intros _ _ Hw Hh. split.
  - unfold Image2DDesc_.eqb. rewrite Hw, Hh, !Z.eqb_refl. reflexivity.
  - unfold hash_Image2DDesc. rewrite Hw, Hh. reflexivity.
Qed.

Lemma Image2DDesc_equal_dims_equal_key_witness :
  Image2DDesc_.eqb (mkImage2DDesc 10 3) (mkImage2DDesc 10 3) = true /\
  hash_Image2DDesc (fun x => SizeT.wrap x) (mkImage2DDesc 10 3)
  = hash_Image2DDesc (fun x => SizeT.wrap x) (mkImage2DDesc 10 3).
Proof.
  apply (Image2DDesc_equal_dims_equal_key (fun x => SizeT.wrap x)
           Image2DDesc_.PackFromTensorNCHW Image2DDesc_.PackFromTensorNCHWc
           [1; 8; 3; 5] [1; 2; 3; 5; 4]); reflexivity.
Defined.

(** ** NDRange *)

(** C8: a default-constructed range has size 0 and a null [Data()]; a range
    built from two values has size 2 and [Data()] points to an array that
    holds them first, in order, as [size_t]: the values themselves whenever
    they are [size_t] values already. *)
Theorem NDRange_size_and_data :
  (NDRange_.Size NDRange_.make0 = 0 /\ NDRange_.Data NDRange_.make0 = None) /\
  (forall a b,
     NDRange_.Size (NDRange_.make2 a b) = 2 /\
     exists arr,
       NDRange_.Data (NDRange_.make2 a b) = Some arr /\
       firstn 2 arr = [SizeT.wrap a; SizeT.wrap b]) /\
  (forall a b,
     SizeT.in_range a -> SizeT.in_range b ->
     exists arr,
       NDRange_.Data (NDRange_.make2 a b) = Some arr /\
       firstn (Z.to_nat (NDRange_.Size (NDRange_.make2 a b))) arr = [a; b]).
Proof.
  split; [split; reflexivity|]. split.
  - intros a b. split; [reflexivity|]. eexists. split; reflexivity.
  - intros a b Ha Hb. eexists. split; [reflexivity|].
    cbn. rewrite !SizeT_wrap_small by assumption. reflexivity.
Qed.

Lemma NDRange_size_and_data_witness :
  SizeT.in_range 10 /\ SizeT.in_range 3 /\
  exists arr,
    NDRange_.Data (NDRange_.make2 10 3) = Some arr /\
    firstn (Z.to_nat (NDRange_.Size (NDRange_.make2 10 3))) arr = [10; 3].
Proof.
  assert (H10 : SizeT.in_range 10) by (vm_compute; split; congruence).
  assert (H3 : SizeT.in_range 3) by (vm_compute; split; congruence).
  split; [exact H10|]. split; [exact H3|].
  exact (proj2 (proj2 NDRange_size_and_data) 10 3 H10 H3).
Defined.

(** ** Checked extraction of a tensor's handle *)

(** C9: from a tensor whose raw handle is null, both extraction macros
    return null and leave the driver log as it was: the memory-object query,
    and with it the kind check, is not performed, in the checked build mode
    as in the unchecked one. *)
Theorem null_handle_skips_kind_check
  (drv : Driver) (USE_CL_CHECKED_CAST : bool) (t : Tensor)
  (log : list DriverCall) :
  DataRaw t = 0 ->
  CL_BUFFER_FROM_TENSOR drv USE_CL_CHECKED_CAST t log = (Ok 0, log) /\
  CL_IMAGE2D_FROM_TENSOR drv USE_CL_CHECKED_CAST t log = (Ok 0, log).
Proof.
  intros Hnull.
  unfold CL_BUFFER_FROM_TENSOR, CL_IMAGE2D_FROM_TENSOR.
  rewrite Hnull. destruct USE_CL_CHECKED_CAST; split; reflexivity.
Qed.

(** In the checked build mode a non-null handle is queried, once, before it
    is returned. *)
Lemma nonnull_handle_is_checked (drv : Driver) (t : Tensor)
  (log : list DriverCall) :
  DataRaw t <> 0 ->
  snd (CL_BUFFER_FROM_TENSOR drv true t log)
  = log ++ [GetMemObjectInfoCall (DataRaw t)
              (fst (clGetMemObjectInfo drv log (DataRaw t)))].
Proof.
  intros Hnn. unfold CL_BUFFER_FROM_TENSOR.
  apply Z.eqb_neq in Hnn.
  unfold cl_bind, CL_CHECK_MEM_OBJECT_IS_BUFFER, call_clGetMemObjectInfo,
    ORT_THROW_IF_CL_ERROR, cl_lift, cl_ret, ORT_ENFORCE.
  rewrite Hnn. cbn.
  destruct (fst (clGetMemObjectInfo drv log (DataRaw t)) =? CL_SUCCESS); cbn;
    [destruct (snd (clGetMemObjectInfo drv log (DataRaw t))
               =? CL_MEM_OBJECT_BUFFER)|]; reflexivity.
Qed.

Lemma null_handle_skips_kind_check_witness :
  DataRaw (mkTensor 0 [2; 3]) = 0 /\
  CL_BUFFER_FROM_TENSOR image_only_driver true (mkTensor 0 [2; 3]) []
  = (Ok 0, []) /\
  CL_IMAGE2D_FROM_TENSOR image_only_driver true (mkTensor 0 [2; 3]) []
  = (Ok 0, []).
Proof.
  split; [reflexivity|].
  exact (null_handle_skips_kind_check image_only_driver true
           (mkTensor 0 [2; 3]) [] eq_refl).
Defined.

(** ** KernelLauncher: the error freeze *)

Lemma bindings_app (a b : list DriverCall) :
  bindings (a ++ b) = bindings a ++ bindings b.
Proof. apply filter_app. Qed.

Lemma UInt32_wrap_wrap (i a b : Z) :
  UInt32.wrap (UInt32.wrap (i + a) + b) = UInt32.wrap (i + (a + b)).
Proof. apply UInt32_add_wrap. Qed.

Lemma UInt32_wrap_range (z : Z) : 0 <= UInt32.wrap z < 2 ^ 32.
Proof. unfold UInt32.wrap. apply Z.mod_pos_bound. lia. Qed.

(** [consistent] reads the log through its binding calls only. *)
Lemma consistent_same_bindings (l : KernelLauncher) (log log' : list DriverCall) :
  bindings log' = bindings log -> consistent l log -> consistent l log'.
Proof. unfold consistent. intros E. rewrite E. tauto. Qed.

(** Before any failure, every binding call of the log has succeeded. *)
Lemma consistent_clear_all_succeeded (l : KernelLauncher)
  (log : list DriverCall) :
  consistent l log -> err_ l = CL_SUCCESS -> Forall succeeded (bindings log).
Proof.
  intros [[E _] | (earlier & i & sz & v & E & Hall & _)] Hclear; rewrite E.
  - constructor.
  - apply Forall_app. split; [assumption|].
    constructor; [exact Hclear | constructor].
Qed.

Section Freeze.
Variable drv : Driver.
Variable USE_CL_CHECKED_CAST : bool.

Lemma bind_slot_ok (arg_size : Z) (arg_value : ArgValue) :
  binder_ok 1 (bind_slot drv arg_size arg_value).
Proof.
  intros l log r log' Hidx Hrun.
  unfold bind_slot, SKIP_IF_ERRORED, cl_bind, call_clSetKernelArg, cl_ret
    in Hrun.
  destruct (err_ l =? CL_SUCCESS) eqn:E.
  - apply Z.eqb_eq in E. inversion Hrun; subst r log'; clear Hrun. split.
    + eexists. split; [apply bindings_app|]. intros Hne. contradiction.
    + intros l' Hl'. inversion Hl'; subst l'; clear Hl'. cbn.
      split; [apply UInt32_wrap_range|].
      split; [reflexivity|]. split; [reflexivity|]. split.
      * intros Hc. right.
        exists (bindings log), (index_ l), arg_size, arg_value.
        split; [apply bindings_app|].
        split; [|reflexivity].
        apply (consistent_clear_all_succeeded l); assumption.
      * intros Hne. contradiction.
  - apply Z.eqb_neq in E. inversion Hrun; subst r log'; clear Hrun. split.
    + exists []. split; [symmetry; apply app_nil_r | reflexivity].
    + intros l' Hl'. inversion Hl'; subst l'; clear Hl'. cbn.
      split; [apply UInt32_wrap_range|].
      split; [reflexivity|]. split; [reflexivity|]. split.
      * intros Hc. exact Hc.
      * intros _. split; reflexivity.
Qed.

Lemma binder_ok_skip : binder_ok 0 (fun l => cl_ret l).
Proof.
  intros l log r log' Hidx Hrun. inversion Hrun; subst r log'. split.
  - exists []. split; [symmetry; apply app_nil_r | reflexivity].
  - intros l' Hl'. inversion Hl'; subst l'.
    split; [assumption|]. split; [reflexivity|]. split.
    + unfold UInt32.wrap. rewrite Z.add_0_r. symmetry. apply Z.mod_small, Hidx.
    + split; [tauto | intros _; split; reflexivity].
Qed.

Lemma binder_ok_seq (n m : Z) (f g : KernelLauncher -> CL KernelLauncher) :
  binder_ok n f -> binder_ok m g ->
  binder_ok (n + m) (fun l => cl_bind (f l) g).
Proof.
  intros Hf Hg l log r log' Hidx Hrun. unfold cl_bind in Hrun.
  destruct (f l log) as [r1 log1] eqn:Ef.
  destruct (Hf _ _ _ _ Hidx Ef) as [(d1 & Hd1 & Hz1) Hok1].
  destruct r1 as [l1 | msg].
  - destruct (Hok1 l1 eq_refl) as (Hi1 & Hk1 & Hx1 & Hc1 & Hfz1).
    destruct (Hg _ _ _ _ Hi1 Hrun) as [(d2 & Hd2 & Hz2) Hok2]. split.
    + exists (d1 ++ d2). split.
      * rewrite Hd2, Hd1. symmetry. apply app_assoc.
      * intros Hne. destruct (Hfz1 Hne) as [He _].
        rewrite (Hz1 Hne), Hz2; [reflexivity | rewrite He; exact Hne].
    + intros l' Hl'.
      destruct (Hok2 l' Hl') as (Hi2 & Hk2 & Hx2 & Hc2 & Hfz2).
      split; [assumption|]. split; [congruence|]. split.
      * rewrite Hx2, Hx1. apply UInt32_wrap_wrap.
      * split; [tauto|]. intros Hne.
        destruct (Hfz1 Hne) as [He Hei].
        destruct (Hfz2 ltac:(rewrite He; exact Hne)) as [He2 Hei2].
        split; congruence.
  - inversion Hrun; subst r log'. split.
    + exists d1. split; assumption.
    + intros l' Hl'. discriminate Hl'.
Qed.

(** A computation that makes no binding call, run ahead of a method, leaves
    the method's guarantees as they are. *)
Lemma binder_ok_after (A : Type) (n : Z) (m : CL A)
  (f : A -> KernelLauncher -> CL KernelLauncher) :
  (forall log r log', m log = (r, log') -> bindings log' = bindings log) ->
  (forall a, binder_ok n (f a)) ->
  binder_ok n (fun l => cl_bind m (fun a => f a l)).
Proof.
  intros Hm Hf l log r log' Hidx Hrun. unfold cl_bind in Hrun.
  destruct (m log) as [r1 log1] eqn:Em.
  pose proof (Hm _ _ _ Em) as Hsame.
  destruct r1 as [a | msg].
  - destruct (Hf a _ _ _ _ Hidx Hrun) as [(d & Hd & Hz) Hok]. split.
    + exists d. rewrite <- Hsame. split; assumption.
    + intros l' Hl'. destruct (Hok l' Hl') as (Hi & Hk & Hx & Hc & Hfz).
      repeat (split; [assumption|]). split; [|assumption].
      intros Hcons. apply Hc.
      apply (consistent_same_bindings l log); assumption.
  - inversion Hrun; subst r log'. split.
    + exists []. rewrite Hsame. split; [symmetry; apply app_nil_r | reflexivity].
    + intros l' Hl'. discriminate Hl'.
Qed.

Lemma CL_BUFFER_FROM_TENSOR_binds_nothing (t : Tensor)
  (log : list DriverCall) (r : Result Z) (log' : list DriverCall) :
  CL_BUFFER_FROM_TENSOR drv USE_CL_CHECKED_CAST t log = (r, log') ->
  bindings log' = bindings log.
Proof.
  unfold CL_BUFFER_FROM_TENSOR, CL_CHECK_MEM_OBJECT_IS_BUFFER, cl_bind,
    call_clGetMemObjectInfo, ORT_THROW_IF_CL_ERROR, cl_lift, cl_ret,
    ORT_ENFORCE.
  destruct USE_CL_CHECKED_CAST; [|intros H; inversion H; reflexivity].
  destruct (DataRaw t =? 0); cbn; [intros H; inversion H; reflexivity|].
  destruct (fst (clGetMemObjectInfo drv log (DataRaw t)) =? CL_SUCCESS); cbn;
    [destruct (snd (clGetMemObjectInfo drv log (DataRaw t))
               =? CL_MEM_OBJECT_BUFFER)|];
    intros H; inversion H; rewrite bindings_app; apply app_nil_r.
Qed.

Lemma CL_IMAGE2D_FROM_TENSOR_binds_nothing (t : Tensor)
  (log : list DriverCall) (r : Result Z) (log' : list DriverCall) :
  CL_IMAGE2D_FROM_TENSOR drv USE_CL_CHECKED_CAST t log = (r, log') ->
  bindings log' = bindings log.
Proof.
  unfold CL_IMAGE2D_FROM_TENSOR, CL_CHECK_MEM_OBJECT_IS_IMAGE_2D, cl_bind,
    call_clGetMemObjectInfo, ORT_THROW_IF_CL_ERROR, cl_lift, cl_ret,
    ORT_ENFORCE.
  destruct USE_CL_CHECKED_CAST; [|intros H; inversion H; reflexivity].
  destruct (DataRaw t =? 0); cbn; [intros H; inversion H; reflexivity|].
  destruct (fst (clGetMemObjectInfo drv log (DataRaw t)) =? CL_SUCCESS); cbn;
    [destruct (snd (clGetMemObjectInfo drv log (DataRaw t))
               =? CL_MEM_OBJECT_IMAGE2D)|];
    intros H; inversion H; rewrite bindings_app; apply app_nil_r.
Qed.

Lemma SetBuffer_ok (arg : MemArg) :
  binder_ok 1 (SetBuffer drv USE_CL_CHECKED_CAST arg).
Proof.
  destruct arg as [m | t].
  - exact (bind_slot_ok 8 (ArgMem m)).
  - apply (binder_ok_after Z 1 (CL_BUFFER_FROM_TENSOR drv USE_CL_CHECKED_CAST t)
             (fun ptr => SetBuffer_mem drv ptr)).
    + apply CL_BUFFER_FROM_TENSOR_binds_nothing.
    + intros ptr. exact (bind_slot_ok 8 (ArgMem ptr)).
Qed.

Lemma SetImage2D_ok (arg : MemArg) :
  binder_ok 1 (SetImage2D drv USE_CL_CHECKED_CAST arg).
Proof.
  destruct arg as [m | t].
  - exact (bind_slot_ok 8 (ArgMem m)).
  - apply (binder_ok_after Z 1
             (CL_IMAGE2D_FROM_TENSOR drv USE_CL_CHECKED_CAST t)
             (fun ptr => SetImage2D_mem drv ptr)).
    + apply CL_IMAGE2D_FROM_TENSOR_binds_nothing.
    + intros ptr. exact (bind_slot_ok 8 (ArgMem ptr)).
Qed.

Lemma SetBuffers_ok (rest : list MemArg) : forall arg other,
  binder_ok (2 + Z.of_nat (List.length rest))
    (SetBuffers drv USE_CL_CHECKED_CAST arg other rest).
Proof.
  induction rest as [| next rest' IH]; intros arg other.
  - exact (binder_ok_seq 1 1 _ _ (SetBuffer_ok arg) (SetBuffer_ok other)).
  - replace (2 + Z.of_nat (List.length (next :: rest')))
      with (1 + (2 + Z.of_nat (List.length rest')))
      by (cbn [List.length]; lia).
    exact (binder_ok_seq _ _ _ _ (SetBuffer_ok arg) (IH other next)).
Qed.

Lemma SetImage2Ds_ok (rest : list MemArg) : forall arg other,
  binder_ok (2 + Z.of_nat (List.length rest))
    (SetImage2Ds drv USE_CL_CHECKED_CAST arg other rest).
Proof.
  induction rest as [| next rest' IH]; intros arg other.
  - exact (binder_ok_seq 1 1 _ _ (SetImage2D_ok arg) (SetImage2D_ok other)).
  - replace (2 + Z.of_nat (List.length (next :: rest')))
      with (1 + (2 + Z.of_nat (List.length rest')))
      by (cbn [List.length]; lia).
    exact (binder_ok_seq _ _ _ _ (SetImage2D_ok arg) (IH other next)).
Qed.

Lemma bind_call_ok (c : BindCall) :
  binder_ok (slots c) (bind_call drv USE_CL_CHECKED_CAST c).
Proof.
  destruct c; cbn [slots].
  - exact (bind_slot_ok _ _).
  - exact (bind_slot_ok _ _).
  - exact (bind_slot_ok _ _).
  - exact (bind_slot_ok _ _).
  - exact (bind_slot_ok _ _).
  - exact (SetBuffer_ok arg).
  - exact (SetBuffers_ok rest arg other).
  - exact (SetImage2D_ok arg).
  - exact (SetImage2Ds_ok rest arg other).
Qed.

Lemma bind_chain_ok (cs : list BindCall) :
  binder_ok (chain_slots cs) (bind_chain drv USE_CL_CHECKED_CAST cs).
Proof.
  induction cs as [| c cs' IH].
  - exact binder_ok_skip.
  - exact (binder_ok_seq _ _ _ _ (bind_call_ok c) IH).
Qed.

End Freeze.

(** C1 (as amended): in a chain of binding calls on a fresh launcher, let
    call [c], run after the calls [pre], be the first during which
    [clSetKernelArg] returns a non-success status.  Then every binding call
    before that one succeeded; the failing call is the last binding call the
    driver ever sees, so that the calls [post] after it invoke the primitive
    no more; the launcher's error status and error index are, and stay, the
    status returned by and the argument index passed to that failing call;
    and the argument-index cursor still advances by one for every slot of
    [post]. *)
Theorem KernelLauncher_error_freeze
  (drv : Driver) (USE_CL_CHECKED_CAST : bool) (kernel : Z)
  (pre : list BindCall) (c : BindCall) (post : list BindCall)
  (l1 l2 : KernelLauncher) (log1 log2 log3 : list DriverCall)
  (r : Result KernelLauncher) :
  bind_chain drv USE_CL_CHECKED_CAST pre (KernelLauncher_ctor kernel) []
  = (Ok l1, log1) ->
  err_ l1 = CL_SUCCESS ->
  bind_call drv USE_CL_CHECKED_CAST c l1 log1 = (Ok l2, log2) ->
  err_ l2 <> CL_SUCCESS ->
  bind_chain drv USE_CL_CHECKED_CAST post l2 log2 = (r, log3) ->
  Forall succeeded (bindings log1) /\
  (exists earlier i sz v,
     bindings log2 = earlier ++ [SetKernelArgCall kernel i sz v (err_ l2)] /\
     Forall succeeded earlier /\
     err_index_ l2 = Some i) /\
  bindings log3 = bindings log2 /\
  (forall l3,
     r = Ok l3 ->
     err_ l3 = err_ l2 /\
     err_index_ l3 = err_index_ l2 /\
     index_ l3 = UInt32.wrap (index_ l2 + chain_slots post)).
Proof.
  intros Hpre Hclear Hcall Hfail Hpost.
  assert (Hidx0 : index_ok (KernelLauncher_ctor kernel))
    by (unfold index_ok; cbn; lia).
  assert (Hcons0 : consistent (KernelLauncher_ctor kernel) [])
    by (left; split; reflexivity).
  destruct (bind_chain_ok drv USE_CL_CHECKED_CAST pre _ _ _ _ Hidx0 Hpre)
    as [_ Hok1].
  destruct (Hok1 l1 eq_refl) as (Hidx1 & Hk1 & _ & Hc1 & _).
  specialize (Hc1 Hcons0).
  destruct (bind_call_ok drv USE_CL_CHECKED_CAST c _ _ _ _ Hidx1 Hcall)
    as [_ Hok2].
  destruct (Hok2 l2 eq_refl) as (Hidx2 & Hk2 & _ & Hc2 & _).
  specialize (Hc2 Hc1).
  destruct (bind_chain_ok drv USE_CL_CHECKED_CAST post _ _ _ _ Hidx2 Hpost)
    as [(during & Hduring & Hnone) Hok3].
  split; [apply (consistent_clear_all_succeeded l1); assumption|].
  split.
  - destruct Hc2 as [[_ Hclear2] | (earlier & i & sz & v & E & Hall & Hi)];
      [contradiction|].
    exists earlier, i, sz, v.
    rewrite Hk2, Hk1 in E. cbn in E. auto.
  - split.
    + rewrite Hduring, (Hnone Hfail). apply app_nil_r.
    + intros l3 Hl3.
      destruct (Hok3 l3 Hl3) as (_ & _ & Hx3 & _ & Hfz3).
      destruct (Hfz3 Hfail) as [He Hei]. auto.
Qed.

Lemma KernelLauncher_error_freeze_witness :
  let pre := [DoSetShmem 64; DoSetInt2 3 4] in
  let c := DoSetBuffer (OfMem 4096) in
  let post :=
    [DoSetInt4 1 2 3 4; DoSetImage2Ds (OfMem 1) (OfMem 2) [OfMem 3]] in
  let l1 := mkKernelLauncher 7 2 CL_SUCCESS (Some 1) in
  let l2 := mkKernelLauncher 7 3 CL_INVALID_ARG_INDEX (Some 2) in
  let l3 := mkKernelLauncher 7 7 CL_INVALID_ARG_INDEX (Some 2) in
  let log1 := [SetKernelArgCall 7 0 64 ArgNull CL_SUCCESS;
               SetKernelArgCall 7 1 8 (ArgInts [3; 4]) CL_SUCCESS] in
  let log2 := log1 ++ [SetKernelArgCall 7 2 8 (ArgMem 4096)
                         CL_INVALID_ARG_INDEX] in
  bind_chain (arity_driver 2) true pre (KernelLauncher_ctor 7) []
  = (Ok l1, log1) /\
  err_ l1 = CL_SUCCESS /\
  bind_call (arity_driver 2) true c l1 log1 = (Ok l2, log2) /\
  err_ l2 <> CL_SUCCESS /\
  bind_chain (arity_driver 2) true post l2 log2 = (Ok l3, log2) /\
  bindings log2 = bindings log2 /\
  (err_ l3 = err_ l2 /\
   err_index_ l3 = err_index_ l2 /\
   index_ l3 = UInt32.wrap (index_ l2 + chain_slots post)).
Proof.
  intros pre c post l1 l2 l3 log1 log2.
  assert (H1 : bind_chain (arity_driver 2) true pre (KernelLauncher_ctor 7) []
               = (Ok l1, log1)) by reflexivity.
  assert (H2 : err_ l1 = CL_SUCCESS) by reflexivity.
  assert (H3 : bind_call (arity_driver 2) true c l1 log1 = (Ok l2, log2))
    by reflexivity.
  assert (H4 : err_ l2 <> CL_SUCCESS) by (cbn; discriminate).
  assert (H5 : bind_chain (arity_driver 2) true post l2 log2 = (Ok l3, log2))
    by reflexivity.
  split; [exact H1|]. split; [exact H2|]. split; [exact H3|].
  split; [exact H4|]. split; [exact H5|].
  destruct (KernelLauncher_error_freeze (arity_driver 2) true 7 pre c post
              l1 l2 log1 log2 log2 (Ok l3) H1 H2 H3 H4 H5)
    as (_ & _ & Hsame & Hfinal).
  split; [exact Hsame|]. exact (Hfinal l3 eq_refl).
Defined.

(** C1, as stated, fails on the code: after the failing first call the
    driver is left alone and the error fields stay, but the argument-index
    cursor moves on, from 1 to 2, with the second call. *)
Lemma KernelLauncher_index_advances_when_frozen :
  let failed := mkKernelLauncher 7 1 CL_INVALID_ARG_INDEX (Some 0) in
  let log := [SetKernelArgCall 7 0 16 ArgNull CL_INVALID_ARG_INDEX] in
  SetShmem (arity_driver 0) 16 (KernelLauncher_ctor 7) [] = (Ok failed, log) /\
  err_ failed <> CL_SUCCESS /\
  SetInt2 (arity_driver 0) 1 2 failed log
  = (Ok (mkKernelLauncher 7 2 CL_INVALID_ARG_INDEX (Some 0)), log) /\
  ~ (forall l', SetInt2 (arity_driver 0) 1 2 failed log = (Ok l', log) ->
                index_ l' = index_ failed).
Proof.
  cbn zeta. split; [reflexivity|]. split; [cbn; discriminate|].
  split; [reflexivity|].
  intros H. specialize (H _ eq_refl). cbn in H. discriminate H.
Qed.

(** * Further properties *)

(** ** CeilDiv and RoundToMultiple beyond the ceiling *)

(** X1: on positive arguments [CeilDiv] grows with the dividend and shrinks
    with the divisor. *)
Theorem CeilDiv_monotone (a a' b b' : Z) :
  1 <= a <= a' -> a' <= Int64.max_signed ->
  1 <= b' <= b -> b <= Int64.max_signed ->
  CeilDiv a b <= CeilDiv a' b /\ CeilDiv a b <= CeilDiv a b'.
Proof.
  intros Ha Ha' Hb Hb'.
  rewrite !CeilDiv_pos by lia. split.
  - apply Z.add_le_mono_r, Z.div_le_mono; lia.
  - apply Z.add_le_mono_r, Z.div_le_compat_l; lia.
Qed.

Lemma CeilDiv_monotone_witness :
  (1 <= 4096 <= 4097) /\ 4097 <= Int64.max_signed /\
  (1 <= 4 <= 4096) /\ 4096 <= Int64.max_signed /\
  CeilDiv 4096 4096 <= CeilDiv 4097 4096 /\
  CeilDiv 4096 4096 <= CeilDiv 4096 4.
Proof.
  assert (H1 : 1 <= 4096 <= 4097) by lia.
  assert (H2 : 4097 <= Int64.max_signed) by (unfold Int64.max_signed; lia).
  assert (H3 : 1 <= 4 <= 4096) by lia.
  assert (H4 : 4096 <= Int64.max_signed) by (unfold Int64.max_signed; lia).
  split; [exact H1|]. split; [exact H2|]. split; [exact H3|].
  split; [exact H4|].
  exact (CeilDiv_monotone 4096 4097 4096 4 H1 H2 H3 H4).
Defined.

(** X2: on a non-positive dividend the truncating division rounds towards
    zero, so [CeilDiv a b] is [1 - (1 - a) / b]: the ceiling of [a / b] or
    one above it, and exactly 1 for every [a] from [2 - b] to 0. *)
Theorem CeilDiv_nonpositive (a b : Z) :
  Int64.min_signed < a <= 0 -> 1 <= b <= Int64.max_signed ->
  CeilDiv a b = 1 - (1 - a) / b /\
  ceil_quotient a b <= CeilDiv a b <= ceil_quotient a b + 1 /\
  (2 - b <= a -> CeilDiv a b = 1).
Proof.
  intros Ha Hb. unfold Int64.min_signed, Int64.max_signed in *.
  assert (Hq : 0 <= (1 - a) / b <= 1 - a).
  { split; [apply Z.div_pos; lia | apply Z.div_le_upper_bound; nia]. }
  assert (E : CeilDiv a b = 1 - (1 - a) / b).
  { unfold CeilDiv, Int64.add, Int64.div, Int64.sub.
    rewrite (Int64_wrap_small (a - 1))
      by (unfold Int64.in_range, Int64.min_signed, Int64.max_signed; lia).
    replace (a - 1) with (- (1 - a)) by lia.
    rewrite Z.quot_opp_l by lia.
    rewrite Z.quot_div_nonneg by lia.
    rewrite (Int64_wrap_small (- ((1 - a) / b)))
      by (unfold Int64.in_range, Int64.min_signed, Int64.max_signed; lia).
    rewrite Int64_wrap_small
      by (unfold Int64.in_range, Int64.min_signed, Int64.max_signed; lia).
    lia. }
  split; [exact E|]. rewrite E. split.
  - pose proof (ceil_quotient_bounds a b ltac:(lia)) as Hc.
    pose proof (Z.div_mod (1 - a) b ltac:(lia)) as Hd.
    pose proof (Z.mod_pos_bound (1 - a) b ltac:(lia)) as Hm.
    split; nia.
  - intros Hnear. rewrite Z.div_small by lia. reflexivity.
Qed.

Lemma CeilDiv_nonpositive_witness :
  (Int64.min_signed < -2 <= 0) /\ (1 <= 4 <= Int64.max_signed) /\
  2 - 4 <= -2 /\ CeilDiv (-2) 4 = 1.
Proof.
  assert (H1 : Int64.min_signed < -2 <= 0)
    by (unfold Int64.min_signed; lia).
  assert (H2 : 1 <= 4 <= Int64.max_signed) by (unfold Int64.max_signed; lia).
  assert (H3 : 2 - 4 <= -2) by lia.
  split; [exact H1|]. split; [exact H2|]. split; [exact H3|].
  exact (proj2 (proj2 (CeilDiv_nonpositive (-2) 4 H1 H2)) H3).
Defined.

(** X3: [RoundToMultiple] leaves a positive multiple of [m] as it is, never
    adds [m] or more, and, when its result is representable, rounding a
    second time changes nothing. *)
Theorem RoundToMultiple_fixed_points (a m : Z) :
  1 <= a <= Int64.max_signed -> 1 <= m <= Int64.max_signed ->
  ((m | a) -> RoundToMultiple a m = a) /\
  (CeilDiv a m * m <= Int64.max_signed ->
   a <= RoundToMultiple a m < a + m /\
   RoundToMultiple (RoundToMultiple a m) m = RoundToMultiple a m).
Proof.
  intros Ha Hm.
  assert (Hmult : forall q, 1 <= q * m <= Int64.max_signed ->
                            RoundToMultiple (q * m) m = q * m).
  { intros q Hq. unfold RoundToMultiple.
    rewrite CeilDiv_pos by lia.
    replace (q * m - 1) with (m - 1 + (q - 1) * m) by lia.
    rewrite Z.div_add by lia. rewrite Z.div_small by lia.
    unfold Int64.mul.
    replace ((0 + (q - 1) + 1) * m) with (q * m) by lia.
    apply Int64_wrap_small.
    unfold Int64.in_range, Int64.min_signed, Int64.max_signed in *. lia. }
  split.
  - intros [q Hq]. subst a. apply Hmult. exact Ha.
  - intros Hfit.
    pose proof (ceil_quotient_bounds a m ltac:(lia)) as Hc.
    rewrite <- (CeilDiv_is_ceiling a m Ha Hm) in Hc.
    assert (E : RoundToMultiple a m = CeilDiv a m * m).
    { apply Int64_wrap_small.
      unfold Int64.in_range, Int64.min_signed, Int64.max_signed in *. lia. }
    rewrite E. split; [lia|]. apply Hmult. lia.
Qed.

Lemma RoundToMultiple_fixed_points_witness :
  (1 <= 12 <= Int64.max_signed) /\ (1 <= 4 <= Int64.max_signed) /\ (4 | 12) /\
  RoundToMultiple 12 4 = 12.
Proof.
  assert (H1 : 1 <= 12 <= Int64.max_signed) by (unfold Int64.max_signed; lia).
  assert (H2 : 1 <= 4 <= Int64.max_signed) by (unfold Int64.max_signed; lia).
  assert (H3 : (4 | 12)) by (exists 3; reflexivity).
  split; [exact H1|]. split; [exact H2|]. split; [exact H3|].
  exact (proj1 (RoundToMultiple_fixed_points 12 4 H1 H2) H3).
Defined.

(** ** The packing rules: rank guards *)

Lemma shape_of_rank_1 (shape : TensorShape) :
  NumDimensions shape = 1 -> exists a, shape = [a].
Proof.
  unfold NumDimensions. destruct shape as [|a [|b r]]; cbn [List.length];
    intros H; try lia. eauto.
Qed.

Lemma shape_of_rank_2 (shape : TensorShape) :
  NumDimensions shape = 2 -> exists a b, shape = [a; b].
Proof.
  unfold NumDimensions. destruct shape as [|a [|b [|c r]]]; cbn [List.length];
    intros H; try lia. eauto.
Qed.

Lemma shape_of_rank_4 (shape : TensorShape) :
  NumDimensions shape = 4 -> exists a b c d, shape = [a; b; c; d].
Proof.
  unfold NumDimensions.
  destruct shape as [|a [|b [|c [|d [|e r]]]]]; cbn [List.length];
    intros H; try lia. eauto.
Qed.

Lemma shape_of_rank_5 (shape : TensorShape) :
  NumDimensions shape = 5 -> exists a b c d e, shape = [a; b; c; d; e].
Proof.
  unfold NumDimensions.
  destruct shape as [|a [|b [|c [|d [|e [|f r]]]]]]; cbn [List.length];
    intros H; try lia. eauto 6.
Qed.

(** A rule that starts with [ORT_ENFORCE (NumDimensions shape =? k)] returns
    only when the rank is [k]. *)
Ltac rank_guard_only_if rule :=
  let d := fresh "d" in
  let H := fresh "H" in
  let E := fresh "E" in
  intros [d H]; unfold rule in H;
  match type of H with
  | context [NumDimensions ?s =? ?k] =>
      destruct (NumDimensions s =? k) eqn:E;
      [apply Z.eqb_eq in E; exact E | cbn in H; discriminate H]
  end.

(** X4: every packing rule returns a descriptor exactly on the shapes of the
    rank it expects, the blocked rule in addition only when the block size
    is 4; on every other shape it fails fatally. *)
Theorem packing_rules_return_iff_rank (shape : TensorShape) :
  ((exists d, Image2DDesc_.PackFromTensor1D shape = Ok d)
   <-> NumDimensions shape = 1) /\
  ((exists d, Image2DDesc_.PackFromTensor2D shape = Ok d)
   <-> NumDimensions shape = 2) /\
  ((exists d, Image2DDesc_.PackFromTensorNCHW shape = Ok d)
   <-> NumDimensions shape = 4) /\
  ((exists d, Image2DDesc_.PackFromTensorNCHWc shape = Ok d)
   <-> NumDimensions shape = 5 /\ nth_error shape 4 = Some 4) /\
  ((exists d, Image2DDesc_.PackFromConv2DWeight shape = Ok d)
   <-> NumDimensions shape = 4) /\
  ((exists d, Image2DDesc_.PackFromWinogradTransform shape = Ok d)
   <-> NumDimensions shape = 4) /\
  ((exists d, Image2DDesc_.PackFromDepthwiseConv2DWeight shape = Ok d)
   <-> NumDimensions shape = 4).
Proof.
  split; [|split; [|split; [|split; [|split; [|split]]]]]; split.
  - rank_guard_only_if Image2DDesc_.PackFromTensor1D.
  - intros E. destruct (shape_of_rank_1 shape E) as (a & ->).
    eexists. reflexivity.
  - rank_guard_only_if Image2DDesc_.PackFromTensor2D.
  - intros E. destruct (shape_of_rank_2 shape E) as (a & b & ->).
    eexists. reflexivity.
  - rank_guard_only_if Image2DDesc_.PackFromTensorNCHW.
  - intros E. destruct (shape_of_rank_4 shape E) as (a & b & c & d & ->).
    eexists. reflexivity.
  - intros [d H]. unfold Image2DDesc_.PackFromTensorNCHWc in H.
    destruct (NumDimensions shape =? 5) eqn:E; [|cbn in H; discriminate H].
    apply Z.eqb_eq in E. split; [exact E|].
    destruct (shape_of_rank_5 shape E) as (N & Cc & Hh & W & c & ->).
    cbn in H. destruct (c =? 4) eqn:Ec; [|cbn in H; discriminate H].
    apply Z.eqb_eq in Ec. subst c. reflexivity.
  - intros [E Hc].
    destruct (shape_of_rank_5 shape E) as (N & Cc & Hh & W & c & ->).
    cbn in Hc. inversion Hc; subst c. eexists. reflexivity.
  - rank_guard_only_if Image2DDesc_.PackFromConv2DWeight.
  - intros E. destruct (shape_of_rank_4 shape E) as (a & b & c & d & ->).
    eexists. reflexivity.
  - rank_guard_only_if Image2DDesc_.PackFromWinogradTransform.
  - intros E. destruct (shape_of_rank_4 shape E) as (a & b & c & d & ->).
    eexists. reflexivity.
  - rank_guard_only_if Image2DDesc_.PackFromDepthwiseConv2DWeight.
  - intros E. destruct (shape_of_rank_4 shape E) as (a & b & c & d & ->).
    eexists. reflexivity.
Qed.

(** X5: the generic packer fails exactly on the rank-5 shapes whose block
    size is not 4; on every other shape, of any rank, it returns a
    descriptor. *)
Theorem PackFromTensor_fails_iff_bad_block (shape : TensorShape) :
  (exists msg, Image2DDesc_.PackFromTensor shape = Fatal msg)
  <-> (exists N Cc H W c, shape = [N; Cc; H; W; c] /\ c <> 4).
Proof.
  split.
  - intros [msg H].
    destruct shape as [|a [|b [|c [|d [|e [|f r]]]]]];
      try (cbn in H; discriminate H).
    + exists a, b, c, d, e. split; [reflexivity|].
      intros ->. cbn in H. discriminate H.
    + unfold Image2DDesc_.PackFromTensor in H.
      rewrite rank_dispatch_default in H;
        try (unfold NumDimensions; cbn [List.length]; lia).
      discriminate H.
  - intros (N & Cc & H & W & c & -> & Hc).
    unfold Image2DDesc_.PackFromTensor. cbn.
    apply Z.eqb_neq in Hc. rewrite Hc. eexists. reflexivity.
Qed.

Lemma PackFromTensor_fails_iff_bad_block_witness :
  exists msg, Image2DDesc_.PackFromTensor [1; 2; 3; 5; 8] = Fatal msg.
Proof.
  apply (proj2 (PackFromTensor_fails_iff_bad_block [1; 2; 3; 5; 8])).
  exists 1, 2, 3, 5, 8. split; [reflexivity | discriminate].
Defined.

Lemma packing_rules_return_iff_rank_witness :
  NumDimensions [5; 7] = 2 /\
  exists d, Image2DDesc_.PackFromTensor2D [5; 7] = Ok d.
Proof.
  split; [reflexivity|].
  exact (proj2 (proj1 (proj2 (packing_rules_return_iff_rank [5; 7])))
           eq_refl).
Defined.

(** ** The packing rules: room for every element *)

Lemma in_range_of_bounds (z : Z) :
  0 <= z <= Int64.max_signed -> Int64.in_range z.
Proof.
  unfold Int64.in_range, Int64.min_signed, Int64.max_signed. lia.
Qed.

(** Read the sides of a descriptor and the element count of a shape. *)
Ltac desc_fields :=
  unfold Image2DDesc_.Width, Image2DDesc_.Height, num_elements;
  cbn [first second fold_right].

(** X6: for a non-empty 1-D or 2-D tensor the image has positive sides and,
    at four values a texel, room for every element, with less than one row
    (1-D) or one texel column (2-D) to spare. *)
Theorem PackFromTensor_1D_2D_capacity :
  (forall L,
     1 <= L <= Int64.max_signed ->
     exists d,
       Image2DDesc_.PackFromTensor1D [L] = Ok d /\
       Image2DDesc_.Width d = 1024 /\ 1 <= Image2DDesc_.Height d /\
       num_elements [L]
       <= 4 * (Image2DDesc_.Width d * Image2DDesc_.Height d)
       < num_elements [L] + 4096) /\
  (forall R C,
     1 <= R <= Int64.max_signed -> 1 <= C ->
     exists d,
       Image2DDesc_.PackFromTensor2D [R; C] = Ok d /\
       1 <= Image2DDesc_.Width d /\ Image2DDesc_.Height d = C /\
       num_elements [R; C]
       <= 4 * (Image2DDesc_.Width d * Image2DDesc_.Height d)
       < num_elements [R + 4; C]).
Proof.
  split.
  - intros L HL. eexists. split; [apply PackFromTensor1D_positive, HL|].
    pose proof (ceil_quotient_bounds L 4096 ltac:(lia)) as Hc.
    desc_fields. repeat split; lia.
  - intros R C HR HC. eexists. split.
    + unfold Image2DDesc_.PackFromTensor2D. cbn.
      rewrite CeilDiv_is_ceiling by (unfold Int64.max_signed in *; lia).
      reflexivity.
    + pose proof (ceil_quotient_bounds R 4 ltac:(lia)) as Hc.
      desc_fields. repeat split; nia.
Qed.

Lemma PackFromTensor_1D_2D_capacity_witness :
  (1 <= 5 <= Int64.max_signed) /\ 1 <= 7 /\
  exists d,
    Image2DDesc_.PackFromTensor2D [5; 7] = Ok d /\
    1 <= Image2DDesc_.Width d /\ Image2DDesc_.Height d = 7 /\
    num_elements [5; 7]
    <= 4 * (Image2DDesc_.Width d * Image2DDesc_.Height d)
    < num_elements [5 + 4; 7].
Proof.
  assert (H1 : 1 <= 5 <= Int64.max_signed) by (unfold Int64.max_signed; lia).
  assert (H2 : 1 <= 7) by lia.
  split; [exact H1|]. split; [exact H2|].
  exact (proj2 PackFromTensor_1D_2D_capacity 5 7 H1 H2).
Defined.

(** X7: for an NCHW tensor of positive dimensions whose image sides are
    representable, the image has positive sides and room for every element,
    with less than one block of four channels to spare; for a blocked
    NCHWc tensor the image holds exactly the elements of the tensor. *)
Theorem PackFromTensor_NCHW_capacity :
  (forall N C H W,
     1 <= N -> 1 <= C <= Int64.max_signed -> 1 <= H -> 1 <= W ->
     ceil_quotient C 4 * W <= Int64.max_signed ->
     N * H <= Int64.max_signed ->
     exists d,
       Image2DDesc_.PackFromTensorNCHW [N; C; H; W] = Ok d /\
       1 <= Image2DDesc_.Width d /\ 1 <= Image2DDesc_.Height d /\
       num_elements [N; C; H; W]
       <= 4 * (Image2DDesc_.Width d * Image2DDesc_.Height d)
       < num_elements [N; C + 4; H; W]) /\
  (forall N Cc H W,
     Int64.in_range (Cc * W) -> Int64.in_range (N * H) ->
     exists d,
       Image2DDesc_.PackFromTensorNCHWc [N; Cc; H; W; 4] = Ok d /\
       4 * (Image2DDesc_.Width d * Image2DDesc_.Height d)
       = num_elements [N; Cc; H; W; 4]).
Proof.
  split.
  - intros N C H W HN HC HH HW HfitW HfitH.
    pose proof (ceil_quotient_bounds C 4 ltac:(lia)) as Hc.
    assert (Hq : 1 <= ceil_quotient C 4) by lia.
    eexists. split.
    + unfold Image2DDesc_.PackFromTensorNCHW. cbn.
      rewrite CeilDiv_is_ceiling by (unfold Int64.max_signed in *; lia).
      rewrite !Int64_mul_exact by (apply in_range_of_bounds; nia).
      reflexivity.
    + desc_fields. set (q := ceil_quotient C 4) in *.
      assert (HP : 1 <= N * H * W) by nia.
      replace (4 * (q * W * (N * H))) with (4 * q * (N * H * W)) by ring.
      replace (N * (C * (H * (W * 1)))) with (C * (N * H * W)) by ring.
      replace (N * ((C + 4) * (H * (W * 1)))) with ((C + 4) * (N * H * W))
        by ring.
      repeat split; nia.
  - intros N Cc H W HfitW HfitH. eexists. split.
    + unfold Image2DDesc_.PackFromTensorNCHWc. cbn.
      rewrite !Int64_mul_exact by assumption. reflexivity.
    + desc_fields. ring.
Qed.

Lemma PackFromTensor_NCHW_capacity_witness :
  1 <= 1 /\ (1 <= 6 <= Int64.max_signed) /\ 1 <= 3 /\ 1 <= 5 /\
  ceil_quotient 6 4 * 5 <= Int64.max_signed /\ 1 * 3 <= Int64.max_signed /\
  exists d,
    Image2DDesc_.PackFromTensorNCHW [1; 6; 3; 5] = Ok d /\
    1 <= Image2DDesc_.Width d /\ 1 <= Image2DDesc_.Height d /\
    num_elements [1; 6; 3; 5]
    <= 4 * (Image2DDesc_.Width d * Image2DDesc_.Height d)
    < num_elements [1; 6 + 4; 3; 5].
Proof.
  assert (H1 : 1 <= 1) by lia.
  assert (H2 : 1 <= 6 <= Int64.max_signed) by (unfold Int64.max_signed; lia).
  assert (H3 : 1 <= 3) by lia.
  assert (H4 : 1 <= 5) by lia.
  assert (H5 : ceil_quotient 6 4 * 5 <= Int64.max_signed)
    by (vm_compute; discriminate).
  assert (H6 : 1 * 3 <= Int64.max_signed) by (vm_compute; discriminate).
  split; [exact H1|]. split; [exact H2|]. split; [exact H3|].
  split; [exact H4|]. split; [exact H5|]. split; [exact H6|].
  exact (proj1 PackFromTensor_NCHW_capacity 1 6 3 5 H1 H2 H3 H4 H5 H6).
Defined.

(** X8: for a convolution weight of positive dimensions whose image sides
    are representable, the Conv2D rule and the depthwise rule both give an
    image with room for every weight, and the two images have the same
    number of texels. *)
Theorem conv_weight_rules_capacity (C_o C_i K_h K_w : Z) :
  1 <= C_o <= Int64.max_signed -> 1 <= C_i -> 1 <= K_h -> 1 <= K_w ->
  ceil_quotient C_o 4 * K_h * K_w <= Int64.max_signed ->
  K_h * K_w * C_i <= Int64.max_signed ->
  exists d dw,
    Image2DDesc_.PackFromConv2DWeight [C_o; C_i; K_h; K_w] = Ok d /\
    Image2DDesc_.PackFromDepthwiseConv2DWeight [C_o; C_i; K_h; K_w] = Ok dw /\
    num_elements [C_o; C_i; K_h; K_w]
    <= 4 * (Image2DDesc_.Width d * Image2DDesc_.Height d)
    < num_elements [C_o + 4; C_i; K_h; K_w] /\
    Image2DDesc_.Width dw * Image2DDesc_.Height dw
    = Image2DDesc_.Width d * Image2DDesc_.Height d.
Proof.
  intros Ho Hi Hh Hw Hfit Hfitdw.
  pose proof (ceil_quotient_bounds C_o 4 ltac:(lia)) as Hc.
  assert (Hq : 1 <= ceil_quotient C_o 4) by lia.
  exists (mkImage2DDesc C_i (ceil_quotient C_o 4 * K_h * K_w)),
         (mkImage2DDesc (K_h * K_w * C_i) (ceil_quotient C_o 4)).
  split; [|split].
  - unfold Image2DDesc_.PackFromConv2DWeight. cbn.
    rewrite CeilDiv_is_ceiling by (unfold Int64.max_signed in *; lia).
    rewrite (Int64_mul_exact (ceil_quotient C_o 4) K_h)
      by (apply in_range_of_bounds; nia).
    rewrite Int64_mul_exact by (apply in_range_of_bounds; nia).
    reflexivity.
  - unfold Image2DDesc_.PackFromDepthwiseConv2DWeight. cbn.
    rewrite CeilDiv_is_ceiling by (unfold Int64.max_signed in *; lia).
    rewrite (Int64_mul_exact K_h K_w) by (apply in_range_of_bounds; nia).
    rewrite Int64_mul_exact by (apply in_range_of_bounds; nia).
    reflexivity.
  - desc_fields. set (q := ceil_quotient C_o 4) in *.
    assert (HP : 1 <= C_i * K_h * K_w) by nia.
    replace (4 * (C_i * (q * K_h * K_w))) with (4 * q * (C_i * K_h * K_w))
      by ring.
    replace (C_o * (C_i * (K_h * (K_w * 1)))) with (C_o * (C_i * K_h * K_w))
      by ring.
    replace ((C_o + 4) * (C_i * (K_h * (K_w * 1))))
      with ((C_o + 4) * (C_i * K_h * K_w)) by ring.
    split; [split; nia | ring].
Qed.

Lemma conv_weight_rules_capacity_witness :
  (1 <= 6 <= Int64.max_signed) /\ 1 <= 8 /\ 1 <= 3 /\ 1 <= 3 /\
  ceil_quotient 6 4 * 3 * 3 <= Int64.max_signed /\
  3 * 3 * 8 <= Int64.max_signed /\
  exists d dw,
    Image2DDesc_.PackFromConv2DWeight [6; 8; 3; 3] = Ok d /\
    Image2DDesc_.PackFromDepthwiseConv2DWeight [6; 8; 3; 3] = Ok dw /\
    num_elements [6; 8; 3; 3]
    <= 4 * (Image2DDesc_.Width d * Image2DDesc_.Height d)
    < num_elements [6 + 4; 8; 3; 3] /\
    Image2DDesc_.Width dw * Image2DDesc_.Height dw
    = Image2DDesc_.Width d * Image2DDesc_.Height d.
Proof.
  assert (H1 : 1 <= 6 <= Int64.max_signed) by (unfold Int64.max_signed; lia).
  assert (H2 : 1 <= 8) by lia.
  assert (H3 : 1 <= 3) by lia.
  assert (H5 : ceil_quotient 6 4 * 3 * 3 <= Int64.max_signed)
    by (vm_compute; discriminate).
  assert (H6 : 3 * 3 * 8 <= Int64.max_signed) by (vm_compute; discriminate).
  split; [exact H1|]. split; [exact H2|]. split; [exact H3|].
  split; [exact H3|]. split; [exact H5|]. split; [exact H6|].
  exact (conv_weight_rules_capacity 6 8 3 3 H1 H2 H3 H3 H5 H6).
Defined.

(** X9: for positive channel counts whose padded sizes are representable,
    the fixed 4x4 transform rule pads the input channels up to the next
    multiple of 4 for the width and gives 16 rows to every started block of
    four output channels. *)
Theorem PackFromWinogradTransform_alignment (C_o C_i K_h K_w : Z) :
  1 <= C_o <= Int64.max_signed -> 1 <= C_i <= Int64.max_signed ->
  ceil_quotient C_i 4 * 4 <= Int64.max_signed ->
  16 * ceil_quotient C_o 4 <= Int64.max_signed ->
  exists d,
    Image2DDesc_.PackFromWinogradTransform [C_o; C_i; K_h; K_w] = Ok d /\
    (4 | Image2DDesc_.Width d) /\
    C_i <= Image2DDesc_.Width d < C_i + 4 /\
    (16 | Image2DDesc_.Height d) /\
    4 * C_o <= Image2DDesc_.Height d < 4 * C_o + 16.
Proof.
  intros Ho Hi HfitW HfitH.
  pose proof (ceil_quotient_bounds C_o 4 ltac:(lia)) as Hco.
  pose proof (ceil_quotient_bounds C_i 4 ltac:(lia)) as Hci.
  exists (mkImage2DDesc (ceil_quotient C_i 4 * 4) (16 * ceil_quotient C_o 4)).
  split.
  - rewrite PackFromWinogradTransform_positive by assumption.
    rewrite !Int64_mul_exact by (apply in_range_of_bounds; lia).
    reflexivity.
  - desc_fields. split; [exists (ceil_quotient C_i 4); reflexivity|].
    split; [lia|].
    split; [exists (ceil_quotient C_o 4); apply Z.mul_comm|]. lia.
Qed.

Lemma PackFromWinogradTransform_alignment_witness :
  (1 <= 6 <= Int64.max_signed) /\ (1 <= 9 <= Int64.max_signed) /\
  ceil_quotient 9 4 * 4 <= Int64.max_signed /\
  16 * ceil_quotient 6 4 <= Int64.max_signed /\
  exists d,
    Image2DDesc_.PackFromWinogradTransform [6; 9; 3; 3] = Ok d /\
    (4 | Image2DDesc_.Width d) /\
    9 <= Image2DDesc_.Width d < 9 + 4 /\
    (16 | Image2DDesc_.Height d) /\
    4 * 6 <= Image2DDesc_.Height d < 4 * 6 + 16.
Proof.
  assert (H1 : 1 <= 6 <= Int64.max_signed) by (unfold Int64.max_signed; lia).
  assert (H2 : 1 <= 9 <= Int64.max_signed) by (unfold Int64.max_signed; lia).
  assert (H3 : ceil_quotient 9 4 * 4 <= Int64.max_signed)
    by (vm_compute; discriminate).
  assert (H4 : 16 * ceil_quotient 6 4 <= Int64.max_signed)
    by (vm_compute; discriminate).
  split; [exact H1|]. split; [exact H2|]. split; [exact H3|].
  split; [exact H4|].
  exact (PackFromWinogradTransform_alignment 6 9 3 3 H1 H2 H3 H4).
Defined.

(** ** NDRange and the dispatch extent of an image *)

Lemma SizeT_wrap_range (z : Z) : SizeT.in_range (SizeT.wrap z).
Proof.
  unfold SizeT.in_range, SizeT.wrap, SizeT.modulus.
  apply Z.mod_pos_bound. lia.
Qed.

Lemma SizeT_zero_range : SizeT.in_range 0.
Proof. unfold SizeT.in_range, SizeT.modulus. lia. Qed.

Ltac ndrange_wf :=
  unfold NDRange_wf, NDRange_.Data, NDRange_.Size; cbn;
  split; [reflexivity|];
  split; [lia|];
  split; [repeat (apply Forall_cons;
                  [first [apply SizeT_wrap_range | apply SizeT_zero_range]|]);
          apply Forall_nil|];
  split; [intros [|[|[|[|i]]]] Hi; cbn; first [reflexivity | lia]|];
  split; intros Hn; first [reflexivity | discriminate Hn].

(** X10: each of the four constructors builds a well-formed range: three
    [size_t] lanes, the rank equal to the number of arguments, zero in every
    lane past the rank, and [Data()] null exactly for the rank-0 range. *)
Theorem NDRange_constructors_wf :
  (NDRange_wf NDRange_.make0 /\ NDRange_.Size NDRange_.make0 = 0) /\
  (forall x,
     NDRange_wf (NDRange_.make1 x) /\ NDRange_.Size (NDRange_.make1 x) = 1) /\
  (forall x y,
     NDRange_wf (NDRange_.make2 x y) /\
     NDRange_.Size (NDRange_.make2 x y) = 2) /\
  (forall x y z,
     NDRange_wf (NDRange_.make3 x y z) /\
     NDRange_.Size (NDRange_.make3 x y z) = 3).
Proof.
  split; [|split; [|split]].
  - split; [ndrange_wf | reflexivity].
  - intros x. split; [ndrange_wf | reflexivity].
  - intros x y. split; [ndrange_wf | reflexivity].
  - intros x y z. split; [ndrange_wf | reflexivity].
Qed.

(** X11: the dispatch extent of a descriptor always has rank 2 and non-null
    data, the degenerate descriptor (0, 0) included.  Its lanes are the
    sides cast to [size_t]: a non-negative side as it is, a negative side
    raised by 2^64. *)
Theorem AsNDRange_extent (d : Image2DDesc) :
  Int64.in_range (first d) -> Int64.in_range (second d) ->
  let cast z := if z <? 0 then z + 2 ^ 64 else z in
  NDRange_.Size (Image2DDesc_.AsNDRange d) = 2 /\
  NDRange_.Data (Image2DDesc_.AsNDRange d)
  = Some [cast (Image2DDesc_.Width d); cast (Image2DDesc_.Height d); 0].
Proof.
  intros Hw Hh cast. split; [reflexivity|].
  assert (Hcast : forall z, Int64.in_range z ->
                            SizeT.wrap (SizeT.wrap z) = cast z).
  { intros z Hz. unfold SizeT.wrap, SizeT.modulus, cast.
    rewrite Z.mod_mod by lia.
    unfold Int64.in_range, Int64.min_signed, Int64.max_signed in Hz.
    destruct (z <? 0) eqn:E.
    - apply Z.ltb_lt in E.
      replace z with (z + 2 ^ 64 + (-1) * 2 ^ 64) at 1 by lia.
      rewrite Z.mod_add by lia. apply Z.mod_small. lia.
    - apply Z.ltb_ge in E. apply Z.mod_small. lia. }
  unfold Image2DDesc_.AsNDRange, NDRange_.make2, NDRange_.Data,
    Image2DDesc_.UWidth, Image2DDesc_.UHeight, Image2DDesc_.Width,
    Image2DDesc_.Height.
  cbn [size_ values_ Z.eqb negb].
  rewrite !Hcast by assumption. reflexivity.
Qed.

Lemma AsNDRange_extent_witness :
  Int64.in_range 10 /\ Int64.in_range (-1) /\
  NDRange_.Data (Image2DDesc_.AsNDRange (mkImage2DDesc 10 (-1)))
  = Some [10; 2 ^ 64 - 1; 0].
Proof.
  assert (H1 : Int64.in_range 10) by (vm_compute; split; discriminate).
  assert (H2 : Int64.in_range (-1)) by (vm_compute; split; discriminate).
  split; [exact H1|]. split; [exact H2|].
  exact (proj2 (AsNDRange_extent (mkImage2DDesc 10 (-1)) H1 H2)).
Defined.

(** ** The hash of a descriptor *)

Lemma lxor_size_t (a b : Z) :
  SizeT.in_range a -> SizeT.in_range b -> SizeT.in_range (Z.lxor a b).
Proof.
  unfold SizeT.in_range, SizeT.modulus. intros Ha Hb.
  assert (Hnn : 0 <= Z.lxor a b) by (apply Z.lxor_nonneg; lia).
  split; [exact Hnn|].
  assert (Hlog : forall z, 0 <= z < 2 ^ 64 -> Z.log2 z < 64).
  { intros z Hz. destruct (Z.eq_dec z 0) as [-> | Hne]; [cbn; lia|].
    apply Z.log2_lt_pow2; lia. }
  destruct (Z.eq_dec (Z.lxor a b) 0) as [E | Hne]; [rewrite E; lia|].
  apply Z.log2_lt_pow2; [lia|].
  pose proof (Z.log2_lxor a b ltac:(lia) ltac:(lia)) as Hmax.
  pose proof (Hlog a Ha). pose proof (Hlog b Hb). lia.
Qed.

(** X12: [HashCombine] keeps its second argument within [size_t], so the
    hash of a descriptor is a [size_t] whenever [std::hash<int64_t>] returns
    one. *)
Theorem hash_Image2DDesc_in_range (std_hash_int64 : Z -> Z)
  (d : Image2DDesc) :
  (forall x, SizeT.in_range (std_hash_int64 x)) ->
  (forall a b, SizeT.in_range b -> SizeT.in_range (HashCombine a b)) /\
  SizeT.in_range (hash_Image2DDesc std_hash_int64 d).
Proof.
  intros Hh.
  assert (Hc : forall a b, SizeT.in_range b -> SizeT.in_range (HashCombine a b)).
  { intros a b Hb. unfold HashCombine, SizeT.xor.
    apply lxor_size_t; [exact Hb|]. unfold SizeT.add. apply SizeT_wrap_range. }
  split; [exact Hc|]. unfold hash_Image2DDesc. apply Hc, Hh.
Qed.

Lemma hash_Image2DDesc_in_range_witness :
  SizeT.in_range (hash_Image2DDesc SizeT.wrap (mkImage2DDesc 10 3)).
Proof.
  exact (proj2 (hash_Image2DDesc_in_range SizeT.wrap (mkImage2DDesc 10 3)
                  SizeT_wrap_range)).
Defined.

(** ** Extraction of a tensor's handle, in full *)



(** Whatever an extraction returns is the tensor's raw handle. *)
Lemma extraction_returns_raw_handle (drv : Driver)
  (USE_CL_CHECKED_CAST : bool) (t : Tensor)
  (log log' : list DriverCall) (p : Z) :
  CL_BUFFER_FROM_TENSOR drv USE_CL_CHECKED_CAST t log = (Ok p, log') \/
  CL_IMAGE2D_FROM_TENSOR drv USE_CL_CHECKED_CAST t log = (Ok p, log') ->
  p = DataRaw t.
Proof.
  unfold CL_BUFFER_FROM_TENSOR, CL_IMAGE2D_FROM_TENSOR,
    CL_CHECK_MEM_OBJECT_IS_BUFFER, CL_CHECK_MEM_OBJECT_IS_IMAGE_2D, cl_bind,
    call_clGetMemObjectInfo, ORT_THROW_IF_CL_ERROR, cl_lift, cl_ret,
    ORT_ENFORCE.
  destruct USE_CL_CHECKED_CAST;
    [|intros [H | H]; inversion H; reflexivity].
  destruct (DataRaw t =? 0); cbn [negb];
    [intros [H | H]; inversion H; reflexivity|].
  cbn [fst snd].
  destruct (fst (clGetMemObjectInfo drv log (DataRaw t)) =? CL_SUCCESS);
    cbn [negb];
    [|intros [H | H]; discriminate H].
  destruct (snd (clGetMemObjectInfo drv log (DataRaw t))
            =? CL_MEM_OBJECT_BUFFER);
    destruct (snd (clGetMemObjectInfo drv log (DataRaw t))
              =? CL_MEM_OBJECT_IMAGE2D);
    intros [H | H]; first [discriminate H | inversion H; reflexivity].
Qed.

(** X14: against the same driver state, only a null handle passes both the
    Buffer and the Image2D extraction of the checked build mode. *)
Theorem checked_kinds_exclusive (drv : Driver) (t : Tensor)
  (log logb logi : list DriverCall)
  (p q : Z) :
  CL_BUFFER_FROM_TENSOR drv true t log = (Ok p, logb) ->
  CL_IMAGE2D_FROM_TENSOR drv true t log = (Ok q, logi) ->
  DataRaw t = 0 /\ p = 0 /\ q = 0 /\ logb = log /\ logi = log.
Proof.
  unfold CL_BUFFER_FROM_TENSOR, CL_IMAGE2D_FROM_TENSOR,
    CL_CHECK_MEM_OBJECT_IS_BUFFER, CL_CHECK_MEM_OBJECT_IS_IMAGE_2D, cl_bind,
    call_clGetMemObjectInfo, ORT_THROW_IF_CL_ERROR, cl_lift, cl_ret,
    ORT_ENFORCE.
  destruct (DataRaw t =? 0) eqn:E; cbn [negb fst snd].
  - apply Z.eqb_eq in E. intros Hb Hi.
    injection Hb as Hp Hlb. injection Hi as Hq Hli. subst. auto.
  - destruct (fst (clGetMemObjectInfo drv log (DataRaw t)) =? CL_SUCCESS);
      cbn [negb]; [|intros Hb; discriminate Hb].
    destruct (snd (clGetMemObjectInfo drv log (DataRaw t))
              =? CL_MEM_OBJECT_BUFFER) eqn:Eb;
      [|intros Hb; discriminate Hb].
    apply Z.eqb_eq in Eb. rewrite Eb. cbn. intros _ Hi. discriminate Hi.
Qed.

Lemma checked_kinds_exclusive_witness :
  CL_BUFFER_FROM_TENSOR image_only_driver true (mkTensor 0 [4]) []
  = (Ok 0, []) /\
  CL_IMAGE2D_FROM_TENSOR image_only_driver true (mkTensor 0 [4]) []
  = (Ok 0, []) /\
  DataRaw (mkTensor 0 [4]) = 0.
Proof.
  assert (Hb : CL_BUFFER_FROM_TENSOR image_only_driver true (mkTensor 0 [4]) []
               = (Ok 0, [])) by reflexivity.
  assert (Hi : CL_IMAGE2D_FROM_TENSOR image_only_driver true (mkTensor 0 [4]) []
               = (Ok 0, [])) by reflexivity.
  split; [exact Hb|]. split; [exact Hi|].
  exact (proj1 (checked_kinds_exclusive image_only_driver (mkTensor 0 [4])
                  [] [] [] 0 0 Hb Hi)).
Defined.


(** ** A chain of binding calls as elementary steps *)

Lemma cl_bind_ret_r (A : Type) (m : CL A) (log : list DriverCall) :
  cl_bind m (fun a => cl_ret a) log = m log.
Proof.
  unfold cl_bind, cl_ret. destruct (m log) as [[a | msg] log']; reflexivity.
Qed.

Lemma cl_bind_assoc (A B C : Type) (m : CL A) (f : A -> CL B) (g : B -> CL C)
  (log : list DriverCall) :
  cl_bind (cl_bind m f) g log = cl_bind m (fun a => cl_bind (f a) g) log.
Proof.
  unfold cl_bind. destruct (m log) as [[a | msg] log']; reflexivity.
Qed.

Lemma cl_bind_ext (A B : Type) (m1 m2 : CL A) (k1 k2 : A -> CL B)
  (log : list DriverCall) :
  m1 log = m2 log ->
  (forall a log', m1 log = (Ok a, log') -> k1 a log' = k2 a log') ->
  cl_bind m1 k1 log = cl_bind m2 k2 log.
Proof.
  intros Hm Hk. unfold cl_bind. rewrite <- Hm.
  destruct (m1 log) as [[a | msg] log'] eqn:E; [|reflexivity].
  apply Hk. reflexivity.
Qed.

Section Chains.
Variable drv : Driver.
Variable USE_CL_CHECKED_CAST : bool.

Local Abbreviation run := (run_atoms drv USE_CL_CHECKED_CAST).

Lemma run_atoms_app (xs ys : list Atom) : forall l log,
  run (xs ++ ys) l log = cl_bind (run xs l) (run ys) log.
Proof.
  induction xs as [| a xs' IH]; intros l log.
  - reflexivity.
  - cbn [app run_atoms]. rewrite cl_bind_assoc.
    apply cl_bind_ext; [reflexivity|]. intros l1 log1 _. apply IH.
Qed.

Lemma SetBuffer_atoms (a : MemArg) (l : KernelLauncher)
  (log : list DriverCall) :
  SetBuffer drv USE_CL_CHECKED_CAST a l log = run (atoms_of_buffer a) l log.
Proof.
  destruct a as [m | t]; cbn [atoms_of_buffer run_atoms run_atom SetBuffer].
  - symmetry. apply cl_bind_ret_r.
  - unfold SetBuffer_tensor. rewrite cl_bind_assoc.
    apply cl_bind_ext; [reflexivity|]. intros p log1 Hp.
    rewrite (extraction_returns_raw_handle drv USE_CL_CHECKED_CAST t log log1 p)
      by (left; exact Hp).
    symmetry. apply (cl_bind_ret_r _ (bind_slot drv 8 (ArgMem (DataRaw t)) l)).
Qed.

Lemma SetImage2D_atoms (a : MemArg) (l : KernelLauncher)
  (log : list DriverCall) :
  SetImage2D drv USE_CL_CHECKED_CAST a l log = run (atoms_of_image2d a) l log.
Proof.
  destruct a as [m | t]; cbn [atoms_of_image2d run_atoms run_atom SetImage2D].
  - symmetry. apply cl_bind_ret_r.
  - unfold SetImage2D_tensor. rewrite cl_bind_assoc.
    apply cl_bind_ext; [reflexivity|]. intros p log1 Hp.
    rewrite (extraction_returns_raw_handle drv USE_CL_CHECKED_CAST t log log1 p)
      by (right; exact Hp).
    symmetry. apply (cl_bind_ret_r _ (bind_slot drv 8 (ArgMem (DataRaw t)) l)).
Qed.

Lemma SetBuffers_atoms (rest : list MemArg) : forall a b l log,
  SetBuffers drv USE_CL_CHECKED_CAST a b rest l log
  = run (flat_map atoms_of_buffer (a :: b :: rest)) l log.
Proof.
  induction rest as [| c rest' IH]; intros a b l log.
  - cbn [SetBuffers flat_map]. rewrite app_nil_r, run_atoms_app.
    apply cl_bind_ext; [apply SetBuffer_atoms|].
    intros l1 log1 _. apply SetBuffer_atoms.
  - cbn [SetBuffers]. change (flat_map atoms_of_buffer (a :: b :: c :: rest'))
      with (atoms_of_buffer a ++ flat_map atoms_of_buffer (b :: c :: rest')).
    rewrite run_atoms_app.
    apply cl_bind_ext; [apply SetBuffer_atoms|].
    intros l1 log1 _. apply IH.
Qed.

Lemma SetImage2Ds_atoms (rest : list MemArg) : forall a b l log,
  SetImage2Ds drv USE_CL_CHECKED_CAST a b rest l log
  = run (flat_map atoms_of_image2d (a :: b :: rest)) l log.
Proof.
  induction rest as [| c rest' IH]; intros a b l log.
  - cbn [SetImage2Ds flat_map]. rewrite app_nil_r, run_atoms_app.
    apply cl_bind_ext; [apply SetImage2D_atoms|].
    intros l1 log1 _. apply SetImage2D_atoms.
  - cbn [SetImage2Ds].
    change (flat_map atoms_of_image2d (a :: b :: c :: rest'))
      with (atoms_of_image2d a ++ flat_map atoms_of_image2d (b :: c :: rest')).
    rewrite run_atoms_app.
    apply cl_bind_ext; [apply SetImage2D_atoms|].
    intros l1 log1 _. apply IH.
Qed.

Lemma bind_call_atoms (c : BindCall) (l : KernelLauncher)
  (log : list DriverCall) :
  bind_call drv USE_CL_CHECKED_CAST c l log = run (atoms_of_call c) l log.
Proof.
  destruct c; cbn [bind_call atoms_of_call];
    try (symmetry; apply (cl_bind_ret_r _ (bind_slot drv _ _ l))).
  - apply SetBuffer_atoms.
  - apply SetBuffers_atoms.
  - apply SetImage2D_atoms.
  - apply SetImage2Ds_atoms.
Qed.

Lemma bind_chain_atoms (cs : list BindCall) : forall l log,
  bind_chain drv USE_CL_CHECKED_CAST cs l log = run (atoms_of_chain cs) l log.
Proof.
  induction cs as [| c cs' IH]; intros l log.
  - reflexivity.
  - cbn [bind_chain]. unfold atoms_of_chain. cbn [flat_map].
    rewrite run_atoms_app.
    apply cl_bind_ext; [apply bind_call_atoms|].
    intros l1 log1 _. apply IH.
Qed.

End Chains.

(** ** What a chain does to the driver *)

Lemma bind_slot_frozen (drv : Driver) (sz : Z) (v : ArgValue)
  (l : KernelLauncher) (log : list DriverCall) :
  err_ l <> CL_SUCCESS -> bind_slot drv sz v l log = (Ok (advance l), log).
Proof.
  intros Hne. apply Z.eqb_neq in Hne.
  unfold bind_slot, SKIP_IF_ERRORED, cl_bind, cl_ret. rewrite Hne.
  reflexivity.
Qed.

Lemma bind_slot_clear (drv : Driver) (sz : Z) (v : ArgValue)
  (l : KernelLauncher) (log : list DriverCall) :
  err_ l = CL_SUCCESS ->
  bind_slot drv sz v l log
  = (Ok (mkKernelLauncher (kernel_ l) (UInt32.add (index_ l) 1)
           (clSetKernelArg drv log (kernel_ l) (index_ l) sz v)
           (Some (index_ l))),
     log ++ [SetKernelArgCall (kernel_ l) (index_ l) sz v
               (clSetKernelArg drv log (kernel_ l) (index_ l) sz v)]).
Proof.
  intros Hc. apply Z.eqb_eq in Hc.
  unfold bind_slot, SKIP_IF_ERRORED, cl_bind, cl_ret, call_clSetKernelArg.
  rewrite Hc. reflexivity.
Qed.

(** An extraction step binds nothing and hands the launcher on untouched,
    unless it throws; in the unchecked build mode it does neither. *)
Lemma extract_step (drv : Driver) (USE_CL_CHECKED_CAST : bool) (a : Atom)
  (l : KernelLauncher) (log : list DriverCall) (r : Result KernelLauncher)
  (log1 : list DriverCall) :
  is_ABind a = false ->
  run_atom drv USE_CL_CHECKED_CAST a l log = (r, log1) ->
  bindings log1 = bindings log /\
  (r = Ok l \/ exists msg, r = Fatal msg) /\
  (USE_CL_CHECKED_CAST = false -> r = Ok l /\ log1 = log).
Proof.
  intros Ha Hrun. destruct a as [sz v | t | t]; [discriminate Ha| |];
    cbn [run_atom] in Hrun; unfold cl_bind, cl_ret in Hrun.
  - destruct (CL_BUFFER_FROM_TENSOR drv USE_CL_CHECKED_CAST t log)
      as [[p | msg] log2] eqn:E;
      pose proof (CL_BUFFER_FROM_TENSOR_binds_nothing _ _ _ _ _ _ E) as Hb;
      inversion Hrun; subst r log1; clear Hrun;
      (split; [exact Hb|]); (split; [eauto|]);
      intros ->; cbn in E; inversion E; auto.
  - destruct (CL_IMAGE2D_FROM_TENSOR drv USE_CL_CHECKED_CAST t log)
      as [[p | msg] log2] eqn:E;
      pose proof (CL_IMAGE2D_FROM_TENSOR_binds_nothing _ _ _ _ _ _ E) as Hb;
      inversion Hrun; subst r log1; clear Hrun;
      (split; [exact Hb|]); (split; [eauto|]);
      intros ->; cbn in E; inversion E; auto.
Qed.

Lemma in_slot_order_snoc (kernel : Z) (bs : list DriverCall)
  (sz : Z) (v : ArgValue) (st : Z) :
  in_slot_order kernel bs ->
  in_slot_order kernel
    (bs ++ [SetKernelArgCall kernel
              (UInt32.wrap (Z.of_nat (List.length bs))) sz v st]).
Proof.
  intros Hord j e Hj.
  destruct (Nat.lt_ge_cases j (List.length bs)) as [Hlt | Hge].
  - rewrite nth_error_app1 in Hj by exact Hlt. apply Hord, Hj.
  - rewrite nth_error_app2 in Hj by exact Hge.
    destruct (j - List.length bs)%nat as [| k] eqn:Ek.
    + cbn in Hj. inversion Hj; subst e.
      replace j with (List.length bs) by lia. eauto.
    + cbn in Hj. destruct k; discriminate Hj.
Qed.

Section ChainFacts.
Variable drv : Driver.
Variable USE_CL_CHECKED_CAST : bool.

Local Abbreviation run := (run_atoms drv USE_CL_CHECKED_CAST).

Lemma run_in_slot_order (atoms : list Atom) : forall l log r log',
  run atoms l log = (r, log') ->
  in_slot_order (kernel_ l) (bindings log) ->
  (err_ l = CL_SUCCESS ->
   index_ l = UInt32.wrap (Z.of_nat (List.length (bindings log)))) ->
  in_slot_order (kernel_ l) (bindings log').
Proof.
  induction atoms as [| a atoms' IH]; intros l log r log' Hrun Hord Hidx.
  - inversion Hrun; subst. exact Hord.
  - cbn [run_atoms] in Hrun. unfold cl_bind in Hrun.
    destruct (is_ABind a) eqn:Ea.
    + destruct a as [sz v | t | t]; try discriminate Ea. cbn [run_atom] in Hrun.
      destruct (Z.eq_dec (err_ l) CL_SUCCESS) as [Hc | Hne].
      * rewrite (bind_slot_clear drv sz v l log Hc) in Hrun.
        apply (IH _ _ _ _ Hrun); cbn [kernel_ index_ err_].
        -- rewrite bindings_app. cbn [bindings filter is_SetKernelArg].
           rewrite (Hidx Hc). apply in_slot_order_snoc, Hord.
        -- intros _. rewrite bindings_app.
           cbn [bindings filter is_SetKernelArg].
           rewrite (Hidx Hc), length_app. cbn [List.length].
           unfold UInt32.add, UInt32.wrap. rewrite Zplus_mod_idemp_l.
           f_equal. lia.
      * rewrite (bind_slot_frozen drv sz v l log Hne) in Hrun.
        apply (IH _ _ _ _ Hrun); cbn [kernel_ index_ err_ advance].
        -- exact Hord.
        -- intros Hc. contradiction.
    + destruct (run_atom drv USE_CL_CHECKED_CAST a l log) as [r1 log1] eqn:E1.
      destruct (extract_step _ _ _ _ _ _ _ Ea E1) as (Hb & Hr & _).
      destruct Hr as [-> | [msg ->]].
      * apply (IH _ _ _ _ Hrun); rewrite Hb; assumption.
      * inversion Hrun; subst. rewrite Hb. exact Hord.
Qed.

Lemma run_counts_slots (atoms : list Atom) : forall l log r log',
  run atoms l log = (r, log') ->
  Z.of_nat (List.length (bindings log'))
  <= Z.of_nat (List.length (bindings log)) + atom_slots atoms /\
  (forall l',
     r = Ok l' -> err_ l' = CL_SUCCESS ->
     err_ l = CL_SUCCESS /\
     Z.of_nat (List.length (bindings log'))
     = Z.of_nat (List.length (bindings log)) + atom_slots atoms).
Proof.
  induction atoms as [| a atoms' IH]; intros l log r log' Hrun.
  - inversion Hrun; subst. unfold atom_slots. cbn. split; [lia|].
    intros l' Hl' Hc. inversion Hl'; subst. split; [exact Hc | lia].
  - cbn [run_atoms] in Hrun. unfold cl_bind in Hrun.
    destruct (is_ABind a) eqn:Ea.
    + assert (Hs : atom_slots (a :: atoms') = 1 + atom_slots atoms').
      { unfold atom_slots. cbn [filter]. rewrite Ea. cbn [List.length]. lia. }
      rewrite Hs.
      destruct a as [sz v | t | t]; try discriminate Ea. cbn [run_atom] in Hrun.
      destruct (Z.eq_dec (err_ l) CL_SUCCESS) as [Hc | Hne].
      * rewrite (bind_slot_clear drv sz v l log Hc) in Hrun.
        destruct (IH _ _ _ _ Hrun) as [Hle Heq].
        rewrite bindings_app, length_app in Hle, Heq.
        cbn [bindings filter is_SetKernelArg List.length] in Hle, Heq.
        split; [lia|]. intros l' Hl' Hc'.
        destruct (Heq l' Hl' Hc') as [_ Hn]. split; [exact Hc | lia].
      * rewrite (bind_slot_frozen drv sz v l log Hne) in Hrun.
        destruct (IH _ _ _ _ Hrun) as [Hle Heq].
        split; [lia|]. intros l' Hl' Hc'.
        destruct (Heq l' Hl' Hc') as [Hc _]. cbn in Hc. contradiction.
    + assert (Hs : atom_slots (a :: atoms') = atom_slots atoms').
      { unfold atom_slots. cbn [filter]. rewrite Ea. reflexivity. }
      rewrite Hs.
      destruct (run_atom drv USE_CL_CHECKED_CAST a l log) as [r1 log1] eqn:E1.
      destruct (extract_step _ _ _ _ _ _ _ Ea E1) as (Hb & Hr & _).
      destruct Hr as [-> | [msg ->]].
      * rewrite <- Hb. apply (IH _ _ _ _ Hrun).
      * inversion Hrun; subst. rewrite Hb.
        assert (0 <= atom_slots atoms') by (unfold atom_slots; lia).
        split; [lia|]. intros l' Hl'. discriminate Hl'.
Qed.

Lemma run_never_throws (atoms : list Atom) : forall l log,
  USE_CL_CHECKED_CAST = false \/ forallb is_ABind atoms = true ->
  exists l' log',
    run atoms l log = (Ok l', log') /\ queries log' = queries log.
Proof.
  induction atoms as [| a atoms' IH]; intros l log Hsafe.
  - exists l, log. split; reflexivity.
  - assert (Hsafe' : USE_CL_CHECKED_CAST = false \/
                     forallb is_ABind atoms' = true).
    { destruct Hsafe as [H | H]; [left; exact H|].
      cbn [forallb] in H. apply andb_true_iff in H. right. apply H. }
    cbn [run_atoms]. unfold cl_bind.
    destruct (is_ABind a) eqn:Ea.
    + destruct a as [sz v | t | t]; try discriminate Ea. cbn [run_atom].
      destruct (Z.eq_dec (err_ l) CL_SUCCESS) as [Hc | Hne].
      * rewrite (bind_slot_clear drv sz v l log Hc).
        match goal with
        | |- context [run atoms' ?l1 ?log1] =>
            destruct (IH l1 log1 Hsafe') as (l' & log' & Hrun & Hq)
        end.
        exists l', log'. split; [exact Hrun|]. rewrite Hq.
        unfold queries. rewrite filter_app. cbn. apply app_nil_r.
      * rewrite (bind_slot_frozen drv sz v l log Hne).
        apply IH, Hsafe'.
    + destruct Hsafe as [Hunchecked | Hall];
        [|cbn [forallb] in Hall; rewrite Ea in Hall; discriminate Hall].
      destruct (run_atom drv USE_CL_CHECKED_CAST a l log) as [r1 log1] eqn:E1.
      destruct (extract_step _ _ _ _ _ _ _ Ea E1) as (_ & _ & Hu).
      destruct (Hu Hunchecked) as [-> ->]. apply IH, Hsafe'.
Qed.

End ChainFacts.

Lemma atom_slots_app (xs ys : list Atom) :
  atom_slots (xs ++ ys) = atom_slots xs + atom_slots ys.
Proof. unfold atom_slots. rewrite filter_app, length_app. lia. Qed.

Lemma atom_slots_buffers (args : list MemArg) :
  atom_slots (flat_map atoms_of_buffer args) = Z.of_nat (List.length args).
Proof.
  induction args as [| a args' IH]; [reflexivity|].
  cbn [flat_map List.length]. rewrite atom_slots_app, IH.
  destruct a; unfold atom_slots;
    cbn [atoms_of_buffer atoms_of_image2d filter is_ABind List.length]; lia.
Qed.

Lemma atom_slots_image2ds (args : list MemArg) :
  atom_slots (flat_map atoms_of_image2d args) = Z.of_nat (List.length args).
Proof.
  induction args as [| a args' IH]; [reflexivity|].
  cbn [flat_map List.length]. rewrite atom_slots_app, IH.
  destruct a; unfold atom_slots;
    cbn [atoms_of_buffer atoms_of_image2d filter is_ABind List.length]; lia.
Qed.

Lemma atom_slots_call (c : BindCall) : atom_slots (atoms_of_call c) = slots c.
Proof.
  destruct c; try reflexivity; cbn [atoms_of_call slots].
  - destruct arg; reflexivity.
  - rewrite atom_slots_buffers. cbn [List.length]. lia.
  - destruct arg; reflexivity.
  - rewrite atom_slots_image2ds. cbn [List.length]. lia.
Qed.

Lemma atom_slots_chain (cs : list BindCall) :
  atom_slots (atoms_of_chain cs) = chain_slots cs.
Proof.
  induction cs as [| c cs' IH]; [reflexivity|].
  unfold atoms_of_chain in *. cbn [flat_map chain_slots fold_right].
  rewrite atom_slots_app, atom_slots_call, IH. reflexivity.
Qed.

Lemma handle_only_atoms (bufs : bool) (args : list MemArg) :
  forallb handle_only args = true ->
  forallb is_ABind
    (flat_map (if bufs then atoms_of_buffer else atoms_of_image2d) args)
  = true.
Proof.
  induction args as [| a args' IH]; [reflexivity|].
  cbn [forallb flat_map]. intros H. apply andb_true_iff in H as [Ha Hr].
  rewrite forallb_app, (IH Hr), andb_true_r.
  destruct a; [|discriminate Ha]. destruct bufs; reflexivity.
Qed.

Lemma tensor_free_atoms (cs : list BindCall) :
  forallb tensor_free cs = true ->
  forallb is_ABind (atoms_of_chain cs) = true.
Proof.
  induction cs as [| c cs' IH]; [reflexivity|].
  cbn [forallb]. intros H. apply andb_true_iff in H as [Hc Hr].
  unfold atoms_of_chain in *. cbn [flat_map].
  rewrite forallb_app, (IH Hr), andb_true_r.
  destruct c; try reflexivity; cbn [tensor_free atoms_of_call] in *.
  - destruct arg; [reflexivity | discriminate Hc].
  - apply (handle_only_atoms true (arg :: other :: rest)).
    cbn [forallb]. rewrite andb_assoc. exact Hc.
  - destruct arg; [reflexivity | discriminate Hc].
  - apply (handle_only_atoms false (arg :: other :: rest)).
    cbn [forallb]. rewrite andb_assoc. exact Hc.
Qed.

Lemma atoms_of_single_buffers (args : list MemArg) :
  atoms_of_chain (map DoSetBuffer args) = flat_map atoms_of_buffer args.
Proof.
  induction args as [| a args' IH]; [reflexivity|].
  unfold atoms_of_chain in *. cbn [map flat_map atoms_of_call].
  rewrite IH. reflexivity.
Qed.

Lemma atoms_of_single_image2ds (args : list MemArg) :
  atoms_of_chain (map DoSetImage2D args) = flat_map atoms_of_image2d args.
Proof.
  induction args as [| a args' IH]; [reflexivity|].
  unfold atoms_of_chain in *. cbn [map flat_map atoms_of_call].
  rewrite IH. reflexivity.
Qed.

(** ** KernelLauncher: further properties of a chain *)

(** X15: the variadic [SetBuffers] (and [SetImage2Ds]) behaves, towards the
    launcher and towards the driver, exactly as the single-argument method
    called once for each argument, in argument order. *)
Theorem variadic_is_chain_of_singles
  (drv : Driver) (USE_CL_CHECKED_CAST : bool)
  (arg other : MemArg) (rest : list MemArg)
  (l : KernelLauncher) (log : list DriverCall) :
  SetBuffers drv USE_CL_CHECKED_CAST arg other rest l log
  = bind_chain drv USE_CL_CHECKED_CAST
      (map DoSetBuffer (arg :: other :: rest)) l log /\
  SetImage2Ds drv USE_CL_CHECKED_CAST arg other rest l log
  = bind_chain drv USE_CL_CHECKED_CAST
      (map DoSetImage2D (arg :: other :: rest)) l log.
Proof.
  split.
  - rewrite SetBuffers_atoms, bind_chain_atoms, atoms_of_single_buffers.
    reflexivity.
  - rewrite SetImage2Ds_atoms, bind_chain_atoms, atoms_of_single_image2ds.
    reflexivity.
Qed.

(** X16: whatever a chain of binding calls on a fresh launcher does, fail
    or throw included, the binding calls the driver has seen are all on the
    launcher's kernel and fill the argument slots in order: the j-th of them
    binds argument index j. *)
Theorem bindings_fill_slots_in_order
  (drv : Driver) (USE_CL_CHECKED_CAST : bool) (kernel : Z)
  (cs : list BindCall) (r : Result KernelLauncher) (log : list DriverCall) :
  bind_chain drv USE_CL_CHECKED_CAST cs (KernelLauncher_ctor kernel) []
  = (r, log) ->
  in_slot_order kernel (bindings log).
Proof.
  intros Hrun. rewrite bind_chain_atoms in Hrun.
  apply (run_in_slot_order drv USE_CL_CHECKED_CAST _ _ _ _ _ Hrun).
  - intros j e Hj. destruct j; discriminate Hj.
  - intros _. reflexivity.
Qed.

Lemma bindings_fill_slots_in_order_witness :
  bind_chain (arity_driver 2) true
    [DoSetShmem 64; DoSetBuffers (OfMem 1) (OfMem 2) [OfMem 3]]
    (KernelLauncher_ctor 7) []
  = (Ok (mkKernelLauncher 7 4 CL_INVALID_ARG_INDEX (Some 2)),
     [SetKernelArgCall 7 0 64 ArgNull CL_SUCCESS;
      SetKernelArgCall 7 1 8 (ArgMem 1) CL_SUCCESS;
      SetKernelArgCall 7 2 8 (ArgMem 2) CL_INVALID_ARG_INDEX]) /\
  in_slot_order 7
    (bindings [SetKernelArgCall 7 0 64 ArgNull CL_SUCCESS;
               SetKernelArgCall 7 1 8 (ArgMem 1) CL_SUCCESS;
               SetKernelArgCall 7 2 8 (ArgMem 2) CL_INVALID_ARG_INDEX]).
Proof.
  assert (H : bind_chain (arity_driver 2) true
                [DoSetShmem 64; DoSetBuffers (OfMem 1) (OfMem 2) [OfMem 3]]
                (KernelLauncher_ctor 7) []
              = (Ok (mkKernelLauncher 7 4 CL_INVALID_ARG_INDEX (Some 2)),
                 [SetKernelArgCall 7 0 64 ArgNull CL_SUCCESS;
                  SetKernelArgCall 7 1 8 (ArgMem 1) CL_SUCCESS;
                  SetKernelArgCall 7 2 8 (ArgMem 2) CL_INVALID_ARG_INDEX]))
    by reflexivity.
  split; [exact H|].
  exact (bindings_fill_slots_in_order (arity_driver 2) true 7 _ _ _ H).
Defined.

(** X17: a chain that returns leaves the kernel handle as it was and the
    argument-index cursor advanced, modulo 2^32, by the number of slots of
    the chain, whether or not a binding failed on the way. *)
Theorem cursor_counts_every_slot
  (drv : Driver) (USE_CL_CHECKED_CAST : bool) (cs : list BindCall)
  (l0 l : KernelLauncher) (log0 log : list DriverCall) :
  0 <= index_ l0 < 2 ^ 32 ->
  bind_chain drv USE_CL_CHECKED_CAST cs l0 log0 = (Ok l, log) ->
  Kernel l = Kernel l0 /\
  index_ l = UInt32.wrap (index_ l0 + chain_slots cs).
Proof.
  intros Hidx Hrun.
  destruct (bind_chain_ok drv USE_CL_CHECKED_CAST cs _ _ _ _ Hidx Hrun)
    as [_ Hok].
  destruct (Hok l eq_refl) as (_ & Hk & Hx & _). split; assumption.
Qed.

Lemma cursor_counts_every_slot_witness :
  0 <= index_ (KernelLauncher_ctor 7) < 2 ^ 32 /\
  bind_chain (arity_driver 2) true
    [DoSetShmem 64; DoSetBuffers (OfMem 1) (OfMem 2) [OfMem 3]]
    (KernelLauncher_ctor 7) []
  = (Ok (mkKernelLauncher 7 4 CL_INVALID_ARG_INDEX (Some 2)),
     [SetKernelArgCall 7 0 64 ArgNull CL_SUCCESS;
      SetKernelArgCall 7 1 8 (ArgMem 1) CL_SUCCESS;
      SetKernelArgCall 7 2 8 (ArgMem 2) CL_INVALID_ARG_INDEX]) /\
  index_ (mkKernelLauncher 7 4 CL_INVALID_ARG_INDEX (Some 2))
  = UInt32.wrap
      (index_ (KernelLauncher_ctor 7)
       + chain_slots
           [DoSetShmem 64; DoSetBuffers (OfMem 1) (OfMem 2) [OfMem 3]]).
Proof.
  assert (H0 : 0 <= index_ (KernelLauncher_ctor 7) < 2 ^ 32) by (cbn; lia).
  assert (H : bind_chain (arity_driver 2) true
                [DoSetShmem 64; DoSetBuffers (OfMem 1) (OfMem 2) [OfMem 3]]
                (KernelLauncher_ctor 7) []
              = (Ok (mkKernelLauncher 7 4 CL_INVALID_ARG_INDEX (Some 2)),
                 [SetKernelArgCall 7 0 64 ArgNull CL_SUCCESS;
                  SetKernelArgCall 7 1 8 (ArgMem 1) CL_SUCCESS;
                  SetKernelArgCall 7 2 8 (ArgMem 2) CL_INVALID_ARG_INDEX]))
    by reflexivity.
  split; [exact H0|]. split; [exact H|].
  exact (proj2 (cursor_counts_every_slot (arity_driver 2) true _ _ _ _ _
                  H0 H)).
Defined.

(** X18: a chain on a fresh launcher never calls the binding primitive more
    often than it has slots; and when it returns with the error status
    clear, every slot was bound, by a call that succeeded. *)
Theorem clear_status_means_all_bound
  (drv : Driver) (USE_CL_CHECKED_CAST : bool) (kernel : Z)
  (cs : list BindCall) (r : Result KernelLauncher) (log : list DriverCall) :
  bind_chain drv USE_CL_CHECKED_CAST cs (KernelLauncher_ctor kernel) []
  = (r, log) ->
  Z.of_nat (List.length (bindings log)) <= chain_slots cs /\
  (forall l,
     r = Ok l -> err_ l = CL_SUCCESS ->
     Z.of_nat (List.length (bindings log)) = chain_slots cs /\
     Forall succeeded (bindings log)).
Proof.
  intros Hrun. pose proof Hrun as Hatoms. rewrite bind_chain_atoms in Hatoms.
  destruct (run_counts_slots drv USE_CL_CHECKED_CAST _ _ _ _ _ Hatoms)
    as [Hle Heq].
  rewrite atom_slots_chain in Hle, Heq. cbn in Hle, Heq.
  split; [exact Hle|]. intros l -> Hclear.
  split; [apply (Heq l eq_refl Hclear)|].
  assert (Hidx0 : index_ok (KernelLauncher_ctor kernel))
    by (unfold index_ok; cbn; lia).
  destruct (bind_chain_ok drv USE_CL_CHECKED_CAST cs _ _ _ _ Hidx0 Hrun)
    as [_ Hok].
  destruct (Hok l eq_refl) as (_ & _ & _ & Hc & _).
  apply (consistent_clear_all_succeeded l); [|exact Hclear].
  apply Hc. left. split; reflexivity.
Qed.

Lemma clear_status_means_all_bound_witness :
  bind_chain buffer_only_driver true
    [DoSetInt2 3 4; DoSetBuffer (OfTensor (mkTensor 9 [4]))]
    (KernelLauncher_ctor 7) []
  = (Ok (mkKernelLauncher 7 2 CL_SUCCESS (Some 1)),
     [SetKernelArgCall 7 0 8 (ArgInts [3; 4]) CL_SUCCESS;
      GetMemObjectInfoCall 9 CL_SUCCESS;
      SetKernelArgCall 7 1 8 (ArgMem 9) CL_SUCCESS]) /\
  err_ (mkKernelLauncher 7 2 CL_SUCCESS (Some 1)) = CL_SUCCESS /\
  Z.of_nat
    (List.length
       (bindings [SetKernelArgCall 7 0 8 (ArgInts [3; 4]) CL_SUCCESS;
                  GetMemObjectInfoCall 9 CL_SUCCESS;
                  SetKernelArgCall 7 1 8 (ArgMem 9) CL_SUCCESS]))
  = chain_slots [DoSetInt2 3 4; DoSetBuffer (OfTensor (mkTensor 9 [4]))].
Proof.
  assert (H : bind_chain buffer_only_driver true
                [DoSetInt2 3 4; DoSetBuffer (OfTensor (mkTensor 9 [4]))]
                (KernelLauncher_ctor 7) []
              = (Ok (mkKernelLauncher 7 2 CL_SUCCESS (Some 1)),
                 [SetKernelArgCall 7 0 8 (ArgInts [3; 4]) CL_SUCCESS;
                  GetMemObjectInfoCall 9 CL_SUCCESS;
                  SetKernelArgCall 7 1 8 (ArgMem 9) CL_SUCCESS]))
    by reflexivity.
  split; [exact H|]. split; [reflexivity|].
  exact (proj1 (proj2 (clear_status_means_all_bound buffer_only_driver true 7
                         _ _ _ H) _ eq_refl eq_refl)).
Defined.

(** X19: in the unchecked build mode, and in any mode when no argument is a
    tensor, a chain of binding calls never throws and never queries a
    memory object: whatever the driver answers, the chain returns. *)
Theorem chain_without_checks_never_throws
  (drv : Driver) (USE_CL_CHECKED_CAST : bool) (cs : list BindCall)
  (l : KernelLauncher) (log : list DriverCall) :
  USE_CL_CHECKED_CAST = false \/ forallb tensor_free cs = true ->
  exists l' log',
    bind_chain drv USE_CL_CHECKED_CAST cs l log = (Ok l', log') /\
    queries log' = queries log.
Proof.
  intros Hsafe.
  destruct (run_never_throws drv USE_CL_CHECKED_CAST (atoms_of_chain cs) l log)
    as (l' & log' & Hrun & Hq).
  - destruct Hsafe as [H | H]; [left; exact H|].
    right. apply tensor_free_atoms, H.
  - exists l', log'. rewrite bind_chain_atoms. split; assumption.
Qed.

Lemma chain_without_checks_never_throws_witness :
  exists l' log',
    bind_chain image_only_driver false
      [DoSetShmem 16; DoSetBuffer (OfTensor (mkTensor 5 [1]))]
      (KernelLauncher_ctor 7) []
    = (Ok l', log') /\
    queries log' = queries [].
Proof.
  exact (chain_without_checks_never_throws image_only_driver false
           [DoSetShmem 16; DoSetBuffer (OfTensor (mkTensor 5 [1]))]
           (KernelLauncher_ctor 7) [] (or_introl eq_refl)).
Defined.



Lemma single_kinds_interchangeable
  (drv : Driver) (USE_CL_CHECKED_CAST : bool) (a : MemArg)
  (l : KernelLauncher) (log : list DriverCall) :
  USE_CL_CHECKED_CAST = false \/ handle_only a = true ->
  SetBuffer drv USE_CL_CHECKED_CAST a l log
  = SetImage2D drv USE_CL_CHECKED_CAST a l log.
Proof.
  intros H. destruct a as [m | t]; [reflexivity|].
  destruct H as [-> | H]; [reflexivity | discriminate H].
Qed.

(** X21: a raw handle is bound in the same way by the Buffer and by the
    Image2D methods, and in the unchecked build mode so is a tensor: the
    two families of methods, variadic forms included, are then
    interchangeable. *)
Theorem unchecked_kinds_interchangeable
  (drv : Driver) (USE_CL_CHECKED_CAST : bool)
  (arg other : MemArg) (rest : list MemArg)
  (l : KernelLauncher) (log : list DriverCall) :
  USE_CL_CHECKED_CAST = false \/
  forallb handle_only (arg :: other :: rest) = true ->
  SetBuffer drv USE_CL_CHECKED_CAST arg l log
  = SetImage2D drv USE_CL_CHECKED_CAST arg l log /\
  SetBuffers drv USE_CL_CHECKED_CAST arg other rest l log
  = SetImage2Ds drv USE_CL_CHECKED_CAST arg other rest l log.
Proof.
  intros Hsafe.
  assert (Hall : forall a, In a (arg :: other :: rest) ->
                           USE_CL_CHECKED_CAST = false \/ handle_only a = true).
  { intros a Ha. destruct Hsafe as [H | H]; [left; exact H|].
    right. rewrite forallb_forall in H. apply H, Ha. }
  clear Hsafe. split.
  - apply single_kinds_interchangeable, Hall. left. reflexivity.
  - revert arg other l log Hall.
    induction rest as [| c rest' IH]; intros arg other l log Hall;
      cbn [SetBuffers SetImage2Ds].
    + apply cl_bind_ext.
      * apply single_kinds_interchangeable, Hall. left. reflexivity.
      * intros l1 log1 _.
        apply single_kinds_interchangeable, Hall. right. left. reflexivity.
    + apply cl_bind_ext.
      * apply single_kinds_interchangeable, Hall. left. reflexivity.
      * intros l1 log1 _. apply IH. intros a Ha. apply Hall. right. exact Ha.
Qed.

Lemma unchecked_kinds_interchangeable_witness :
  SetBuffers image_only_driver false
    (OfTensor (mkTensor 5 [4])) (OfMem 6) [] (KernelLauncher_ctor 7) []
  = SetImage2Ds image_only_driver false
      (OfTensor (mkTensor 5 [4])) (OfMem 6) [] (KernelLauncher_ctor 7) [].
Proof.
  exact (proj2 (unchecked_kinds_interchangeable image_only_driver false
                  (OfTensor (mkTensor 5 [4])) (OfMem 6) []
                  (KernelLauncher_ctor 7) [] (or_introl eq_refl))).
Defined.

(** X22: the error fields are written by every binding call that reaches the
    driver, not only by a failing one.  After a chain on a fresh launcher
    that returns, the status is clear if nothing reached the driver, and
    otherwise the status and the error index are the status returned by and
    the argument index passed to the most recent binding call the driver
    has seen, a successful one included. *)
Theorem error_fields_mirror_last_binding
  (drv : Driver) (USE_CL_CHECKED_CAST : bool) (kernel : Z)
  (cs : list BindCall) (l : KernelLauncher) (log : list DriverCall) :
  bind_chain drv USE_CL_CHECKED_CAST cs (KernelLauncher_ctor kernel) []
  = (Ok l, log) ->
  (bindings log = [] -> err_ l = CL_SUCCESS) /\
  (forall earlier k i sz v st,
     bindings log = earlier ++ [SetKernelArgCall k i sz v st] ->
     err_ l = st /\ err_index_ l = Some i /\ k = kernel /\
     Forall succeeded earlier).
Proof.
  intros Hrun.
  assert (Hidx0 : index_ok (KernelLauncher_ctor kernel))
    by (unfold index_ok; cbn; lia).
  destruct (bind_chain_ok drv USE_CL_CHECKED_CAST cs _ _ _ _ Hidx0 Hrun)
    as [_ Hok].
  destruct (Hok l eq_refl) as (_ & Hk & _ & Hc & _).
  assert (Hcons : consistent l log) by (apply Hc; left; split; reflexivity).
  cbn in Hk.
  destruct Hcons as [[Hnil Hclear] | (earlier' & i' & sz' & v' & E & Hall & Hi)].
  - split; [intros _; exact Hclear|].
    intros earlier k i sz v st Hb. rewrite Hnil in Hb.
    destruct earlier; discriminate Hb.
  - split; [intros Hnil; rewrite Hnil in E; destruct earlier'; discriminate E|].
    intros earlier k i sz v st Hb. rewrite E in Hb.
    apply app_inj_tail in Hb as [He Hlast].
    inversion Hlast; subst. auto.
Qed.

Lemma error_fields_mirror_last_binding_witness :
  bind_chain buffer_only_driver true
    [DoSetInt2 3 4; DoSetBuffer (OfTensor (mkTensor 9 [4]))]
    (KernelLauncher_ctor 7) []
  = (Ok (mkKernelLauncher 7 2 CL_SUCCESS (Some 1)),
     [SetKernelArgCall 7 0 8 (ArgInts [3; 4]) CL_SUCCESS;
      GetMemObjectInfoCall 9 CL_SUCCESS;
      SetKernelArgCall 7 1 8 (ArgMem 9) CL_SUCCESS]) /\
  err_index_ (mkKernelLauncher 7 2 CL_SUCCESS (Some 1)) = Some 1.
Proof.
  assert (H : bind_chain buffer_only_driver true
                [DoSetInt2 3 4; DoSetBuffer (OfTensor (mkTensor 9 [4]))]
                (KernelLauncher_ctor 7) []
              = (Ok (mkKernelLauncher 7 2 CL_SUCCESS (Some 1)),
                 [SetKernelArgCall 7 0 8 (ArgInts [3; 4]) CL_SUCCESS;
                  GetMemObjectInfoCall 9 CL_SUCCESS;
                  SetKernelArgCall 7 1 8 (ArgMem 9) CL_SUCCESS]))
    by reflexivity.
  split; [exact H|].
  exact (proj1 (proj2
           (proj2 (error_fields_mirror_last_binding buffer_only_driver true 7
                     _ _ _ H)
              [SetKernelArgCall 7 0 8 (ArgInts [3; 4]) CL_SUCCESS]
              7 1 8 (ArgMem 9) CL_SUCCESS eq_refl))).
Defined.

(** ** Equality of descriptors *)

(** X23: [operator==] holds exactly for descriptors with the same width and
    the same height, that is for identical descriptors; it is therefore
    reflexive, symmetric and transitive. *)
Theorem Image2DDesc_eqb_spec (d1 d2 d3 : Image2DDesc) :
  (Image2DDesc_.eqb d1 d2 = true <-> d1 = d2) /\
  Image2DDesc_.eqb d1 d1 = true /\
  Image2DDesc_.eqb d1 d2 = Image2DDesc_.eqb d2 d1 /\
  (Image2DDesc_.eqb d1 d2 = true -> Image2DDesc_.eqb d2 d3 = true ->
   Image2DDesc_.eqb d1 d3 = true).
Proof.
  assert (Hspec : forall a b, Image2DDesc_.eqb a b = true <-> a = b).
  { intros [w1 h1] [w2 h2].
    unfold Image2DDesc_.eqb, Image2DDesc_.Width, Image2DDesc_.Height.
    cbn [first second]. rewrite andb_true_iff, !Z.eqb_eq. split.
    - intros [-> ->]. reflexivity.
    - intros E. inversion E. auto. }
  split; [apply Hspec|]. split; [apply Hspec; reflexivity|]. split.
  - unfold Image2DDesc_.eqb.
    rewrite (Z.eqb_sym (Image2DDesc_.Width d1)),
      (Z.eqb_sym (Image2DDesc_.Height d1)).
    reflexivity.
  - intros H12 H23. apply Hspec in H12. apply Hspec in H23.
    apply Hspec. congruence.
Qed.

Lemma Image2DDesc_eqb_spec_witness :
  Image2DDesc_.eqb (mkImage2DDesc 10 3) (mkImage2DDesc 10 3) = true /\
  mkImage2DDesc 10 3 = mkImage2DDesc 10 3.
Proof.
  assert (H : Image2DDesc_.eqb (mkImage2DDesc 10 3) (mkImage2DDesc 10 3)
              = true) by reflexivity.
  split; [exact H|].
  exact (proj1 (proj1 (Image2DDesc_eqb_spec (mkImage2DDesc 10 3)
                         (mkImage2DDesc 10 3) (mkImage2DDesc 10 3))) H).
Defined.
